(** * The Bluesky listener worker ([listeners/bluesky/main.py])

    A shallow embedding of the worker: the roster fetch
    ([fetch_subscribed_authors]), the websocket loop ([websocket_client]) and
    [main], over a model of the Python values that [json.loads] produces, and
    theorems about what the worker forwards, logs and waits for. *)

From Stdlib Require Import ZArith String List Lia.
From Stdlib.Floats Require Import SpecFloat.
From stdpp Require Import base option countable gmap strings list fin_maps.

Set Warnings "-register-all".
Local Open Scope Z_scope.
Local Open Scope string_scope.

(** ** Python values *)

Module Py.

(** The values [json.loads] and [response.json()] return: [None], [bool],
    [int], [float] (an IEEE 754 double, as the [spec_float] of its sign,
    mantissa and exponent), [str], [list] and [dict] with string keys. A
    [str] is held as the bytes of its UTF-8 encoding; its characters are
    the code points those bytes encode. *)
Inductive pyval : Type :=
| VNone
| VBool (b : bool)
| VInt (z : Z)
| VFloat (f : spec_float)
| VStr (s : string)
| VList (l : list pyval)
| VDict (d : gmap string pyval).

(** The exception classes the worker's handlers tell apart. A constructor
    stands for the class and its subclasses. *)
Inductive exn : Type :=
| JSONDecodeError                                (* json.JSONDecodeError *)
| AttributeError
| TypeError
| HTTPStatusError (status_code : Z) (text : string) (* httpx.HTTPStatusError *)
| RequestError                                   (* httpx.RequestError *)
| ConnectionClosed   (* websockets.exceptions.ConnectionClosed; the read of
                       a connection raises it (as ConnectionClosedError)
                       when the connection ends abnormally *)
| OtherException                 (* any other subclass of Exception *)
| NonException.  (* BaseException outside Exception: CancelledError,
                    KeyboardInterrupt, SystemExit *)

(** [isinstance(e, Exception)] *)
Definition is_Exception (e : exn) : bool :=
  match e with
  | NonException => false
  | _ => true
  end.

Inductive result (A : Type) : Type :=
| Ok (a : A)
| Raise (e : exn).
Arguments Ok {A} a.
Arguments Raise {A} e.

(** [bool(v)]: the truth value of [v] in an [if], [not] or [and]. *)
Definition truthy (v : pyval) : bool :=
  match v with
  | VNone => false
  | VBool b => b
  | VInt z => negb (Z.eqb z 0)
  | VFloat (S754_zero _) => false
  | VFloat _ => true
  | VStr s => negb (String.eqb s EmptyString)
  | VList l => match l with [] => false | _ => true end
  | VDict d => negb (bool_decide (d = ∅))
  end.

(** [v == s] for a string literal [s]: only an equal [str] compares equal. *)
Definition eq_str (v : pyval) (s : string) : bool :=
  match v with
  | VStr t => String.eqb t s
  | _ => false
  end.

(** [v.get(key)] and [v.get(key, default)] for a string literal [key]: only
    a [dict] has the method. *)
Definition get_default (v : pyval) (key : string) (dflt : pyval)
  : result pyval :=
  match v with
  | VDict d => Ok (default dflt (d !! key))
  | _ => Raise AttributeError
  end.

Definition get (v : pyval) (key : string) : result pyval :=
  get_default v key VNone.

(** *** Characters

    In UTF-8 a character is one byte that is not a continuation byte
    ([10xxxxxx], 128 to 191), followed by its continuation bytes. *)
Definition is_continuation (c : Ascii.ascii) : bool :=
  Nat.leb 128 (Ascii.nat_of_ascii c) && Nat.ltb (Ascii.nat_of_ascii c) 192.


(** [s[:n]]: the first [n] characters, each with all its bytes. *)
Fixpoint take_chars (n : nat) (s : string) : string :=
  match s with
  | EmptyString => EmptyString
  | String c s' =>
      if is_continuation c then String c (take_chars n s')
      else match n with
           | O => EmptyString
           | S n' => String c (take_chars n' s')
           end
  end.

(** [list(s)]: the characters, one string each. *)
Fixpoint chars_of (s : string) : list string :=
  match s with
  | EmptyString => []
  | String c s' =>
      match s' with
      | EmptyString => [String c EmptyString]
      | String c' _ =>
          if is_continuation c' then
            match chars_of s' with
            | [] => [String c EmptyString]
            | ch :: rest => String c ch :: rest
            end
          else String c EmptyString :: chars_of s'
      end
  end.

(** [for x in v]: the items the loop visits. A [dict] yields its keys, a
    [str] its characters; numbers and [None] are not iterable. *)
Definition iterate (v : pyval) : result (list pyval) :=
  match v with
  | VList l => Ok l
  | VDict d => Ok (VStr <$> (map_to_list d).*1)
  | VStr s => Ok (VStr <$> chars_of s)
  | VNone | VBool _ | VInt _ | VFloat _ => Raise TypeError
  end.

(** [v[:n]]: the first [n] characters of a [str] or items of a [list]. The
    other values cannot be sliced ([TypeError]; a [dict] raises [KeyError]
    from Python 3.12 on, which the handlers treat alike). *)
Definition slice_to (n : nat) (v : pyval) : result pyval :=
  match v with
  | VStr s => Ok (VStr (take_chars n s))
  | VList l => Ok (VList (take n l))
  | _ => Raise TypeError
  end.

(** *** Dictionary keys

    A [dict] compares keys with [==] after hashing, so [True], [1] and [1.0]
    are one key. [hkey] is the key up to that equality: a number that is an
    integer is kept as the integer. The [NaN] of the [json] module is one
    object, which a [dict] finds again by identity. [list] and [dict] are
    unhashable. *)
Inductive hkey : Type :=
| KNone
| KStr (s : string)
| KInt (z : Z)
| KFloat (f : spec_float).  (* not an integer: a fraction, inf or nan *)

(** The integer a float equals, if any: [s m 2^e] is [(-1)^s * m * 2^e]. *)
Definition float_to_int (f : spec_float) : option Z :=
  match f with
  | S754_zero _ => Some 0
  | S754_finite s m e =>
      let sign := if s then (-1) else 1 in
      if Z.leb 0 e then Some (sign * Z.shiftl (Z.pos m) e)
      else if Z.eqb (Z.land (Z.pos m) (Z.ones (- e))) 0
           then Some (sign * Z.shiftr (Z.pos m) (- e))
           else None
  | S754_infinity _ | S754_nan => None
  end.

(** [hash(v)], as far as a [dict] needs it. *)
Definition hash_key (v : pyval) : result hkey :=
  match v with
  | VNone => Ok KNone
  | VBool b => Ok (KInt (if b then 1 else 0))
  | VInt z => Ok (KInt z)
  | VFloat f => Ok (match float_to_int f with
                    | Some z => KInt z
                    | None => KFloat f
                    end)
  | VStr s => Ok (KStr s)
  | VList _ | VDict _ => Raise TypeError
  end.

#[global] Instance spec_float_eq_dec : EqDecision spec_float.
Proof. solve_decision. Defined.

#[global] Instance hkey_eq_dec : EqDecision hkey.
Proof. solve_decision. Defined.

Definition spec_float_enc (f : spec_float)
  : bool + bool + unit + bool * positive * Z :=
  match f with
  | S754_zero s => inl (inl (inl s))
  | S754_infinity s => inl (inl (inr s))
  | S754_nan => inl (inr tt)
  | S754_finite s m e => inr (s, m, e)
  end.

Definition spec_float_dec (x : bool + bool + unit + bool * positive * Z)
  : spec_float :=
  match x with
  | inl (inl (inl s)) => S754_zero s
  | inl (inl (inr s)) => S754_infinity s
  | inl (inr _) => S754_nan
  | inr (s, m, e) => S754_finite s m e
  end.

#[global] Instance spec_float_countable : Countable spec_float.
Proof.
  apply (inj_countable' spec_float_enc spec_float_dec).
  intros []; reflexivity.
Defined.

Definition hkey_enc (k : hkey) : unit + string + Z + spec_float :=
  match k with
  | KNone => inl (inl (inl tt))
  | KStr s => inl (inl (inr s))
  | KInt z => inl (inr z)
  | KFloat f => inr f
  end.

Definition hkey_dec (x : unit + string + Z + spec_float) : hkey :=
  match x with
  | inl (inl (inl _)) => KNone
  | inl (inl (inr s)) => KStr s
  | inl (inr z) => KInt z
  | inr f => KFloat f
  end.

#[global] Instance hkey_countable : Countable hkey.
Proof.
  apply (inj_countable' hkey_enc hkey_dec).
  intros []; reflexivity.
Defined.

End Py.

Import Py.

(** ** What the worker does to the outside world *)

Inductive level : Type := INFO | WARNING | ERROR.

(** The [logging] calls of the source, one constructor per call site, with
    the values formatted into the message. *)
Inductive logmsg : Type :=
| FetchingAuthors (endpoint : string)              (* line 32 *)
| ApiReturnedNoAuthors                             (* line 42 *)
| FetchedAuthors (count : nat)                     (* line 55 *)
| ErrorFetchingAuthors (e : exn)                   (* line 58 *)
| FailedToDecodeJsonResponse                       (* line 60 *)
| UnexpectedFetchError (e : exn)                   (* line 62 *)
| NoAuthorsToSubscribe                             (* line 72 *)
| WorkerConnected                                  (* line 82 *)
| NewPost (author_id : pyval) (post_text_100 : pyval) (* line 97 *)
| SendingPost (url : string)                       (* line 111 *)
| TriggeredWorkflow (status_code : Z)              (* line 114 *)
| ApiRequestFailed (status_code : Z) (text : string) (* line 116 *)
| WorkflowApiError (e : exn)                       (* line 118 *)
| CouldNotDecodeJson                               (* line 121 *)
| MessageProcessingError (e : exn)                 (* line 123 *)
| ConnectionClosedReconnecting                     (* line 126 *)
| WebsocketClientError (e : exn)                   (* line 128 *)
| WorkerStarting.                                  (* line 135 *)

(** The calls that leave the process, in the order they are made. The
    websocket URL is kept as its base and the dids formatted into its
    [wantedDids=] parameters. *)
Inductive event : Type :=
| Log (lvl : level) (msg : logmsg)
| HttpGet (url authorization : string) (timeout : Z)
| HttpPost (url : string) (json : pyval) (authorization : string) (timeout : Z)
| WsConnect (base_url : string) (wantedDids : list pyval)
| Sleep (seconds : Z).

(** An [httpx] response: its status, its body text and what [.json()]
    gives for that body. *)
Record response : Type := Response {
  status_code : Z;
  text : string;
  json : result pyval
}.

(** What an [httpx] request does: raise, or return a response. *)
Inductive http_reply : Type :=
| Fails (e : exn)
| Replies (r : response).

(** [response.raise_for_status()]: [httpx] returns for a 2xx status and
    raises [HTTPStatusError] for every other one, the 4xx and 5xx that the
    comment of line 113 names as well as 1xx and 3xx. *)
Definition raise_for_status (r : response) : result unit :=
  if Z.leb 200 (status_code r) && Z.ltb (status_code r) 300
  then Ok tt
  else Raise (HTTPStatusError (status_code r) (text r)).

(** How an iteration over the websocket ends: the connection is exhausted
    without an exception, which is how [websockets] ends [async for] when
    the connection is closed cleanly, or the read raises. *)
Inductive stream_end : Type :=
| Exhausted
| Broken (e : exn).

(** One pass through [websockets.connect]: the handshake raises, or the
    connection delivers its messages and then ends. *)
Inductive session : Type :=
| Refused (e : exn)
| Established (messages : list string) (ending : stream_end).

(** ** The worker's state and its effects *)

(** The global dictionary of line 22, and the number of workflow requests
    issued so far (the index under which the environment answers the next
    one). *)
Record state : Type := State {
  SUBSCRIBED_AUTHORS_DATA : gmap hkey pyval;
  requests_issued : nat
}.

Record run (A : Type) : Type := Run {
  events : list event;
  state_after : state;
  returned : result A
}.
Arguments Run {A} events state_after returned.
Arguments events {A} r.
Arguments state_after {A} r.
Arguments returned {A} r.

(** A computation that reads and writes the state, emits events and may
    raise. *)
Definition M (A : Type) : Type := state -> run A.

Definition ret {A} (a : A) : M A := fun st => Run [] st (Ok a).

Definition raise {A} (e : exn) : M A := fun st => Run [] st (Raise e).

Definition bind {A B} (m : M A) (k : A -> M B) : M B := fun st =>
  match m st with
  | Run evs st' (Raise e) => Run evs st' (Raise e)
  | Run evs st' (Ok a) =>
      match k a st' with
      | Run evs' st'' r => Run (evs ++ evs') st'' r
      end
  end.

Declare Scope worker_scope.
Delimit Scope worker_scope with worker.
Notation "x <- c1 ;; c2" := (bind c1 (fun x => c2))
  (at level 100, c1 at next level, right associativity) : worker_scope.
Notation "c1 ;; c2" := (bind c1 (fun _ => c2))
  (at level 100, right associativity) : worker_scope.
Local Open Scope worker_scope.

Definition lift {A} (r : result A) : M A := fun st => Run [] st r.

Definition emit (e : event) : M unit := fun st => Run [e] st (Ok tt).

Definition log (lvl : level) (msg : logmsg) : M unit := emit (Log lvl msg).

Definition sleep (seconds : Z) : M unit := emit (Sleep seconds).

(** [try: body except ...]: [handler e] is the clause that matches [e], if
    any. What the body did before it raised stays done. *)
Definition try_except {A} (body : M A) (handler : exn -> option (M A)) : M A :=
  fun st =>
  match body st with
  | Run evs st' (Ok a) => Run evs st' (Ok a)
  | Run evs st' (Raise e) =>
      match handler e with
      | None => Run evs st' (Raise e)
      | Some h =>
          match h st' with
          | Run evs' st'' r => Run (evs ++ evs') st'' r
          end
      end
  end.

(** [SUBSCRIBED_AUTHORS_DATA.clear()] *)
Definition roster_clear : M unit := fun st =>
  Run [] (State ∅ (requests_issued st)) (Ok tt).

(** [SUBSCRIBED_AUTHORS_DATA[k] = v] *)
Definition roster_setitem (k v : pyval) : M unit := fun st =>
  match hash_key k with
  | Raise e => Run [] st (Raise e)
  | Ok key =>
      Run [] (State (<[key := v]> (SUBSCRIBED_AUTHORS_DATA st))
                    (requests_issued st)) (Ok tt)
  end.

(** [SUBSCRIBED_AUTHORS_DATA.get(k, dflt)] *)
Definition roster_get (k dflt : pyval) : M pyval := fun st =>
  match hash_key k with
  | Raise e => Run [] st (Raise e)
  | Ok key => Run [] st (Ok (default dflt (SUBSCRIBED_AUTHORS_DATA st !! key)))
  end.

(** ** The worker *)

Definition WEBSOCKET_BASE_URL : string :=
  "wss://jetstream1.us-west.bsky.network/subscribe".

(** How [websocket_client] stops being followed: it returned (line 73), or
    it is back at the top of [while True] with no further session to go
    through. *)
Inductive client_exit : Type :=
| Returned
| Looping.

Section Worker.

(** The configuration read from the environment (lines 14-15); the module
    exits at line 20 unless [API_BASE_URL] is set. *)
Variable API_BASE_URL : string.
Variable ADMIN_API_KEY : option string.

(** The collaborators: [json.loads], the control API's answer to the roster
    request, and its answer to the [n]-th workflow request (counted from 0)
    carrying a given body. *)
Variable json_loads : string -> result pyval.
Variable authors_api : http_reply.
Variable workflow_api : nat -> pyval -> http_reply.

(** [f"Bearer {ADMIN_API_KEY}"] *)
Definition authorization : string :=
  "Bearer " ++ default "None" ADMIN_API_KEY.

(** [await client.get(authors_endpoint, headers=headers, timeout=10.0)] *)
Definition client_get (url : string) : M response :=
  emit (HttpGet url authorization 10) ;;
  match authors_api with
  | Fails e => raise e
  | Replies r => ret r
  end.

(** [await client.post(url, json=payload, headers=headers, timeout=15.0)] *)
Definition client_post (url : string) (payload : pyval) : M response :=
  fun st =>
  Run [HttpPost url payload authorization 15]
      (State (SUBSCRIBED_AUTHORS_DATA st) (S (requests_issued st)))
      (match workflow_api (requests_issued st) payload with
       | Fails e => Raise e
       | Replies r => Ok r
       end).

(** Lines 46-54, the [for author in authors] loop, carrying the local list
    [bsky_dids]. *)
Fixpoint for_author_in (authors : list pyval) (bsky_dids : list pyval)
  : M (list pyval) :=
  match authors with
  | [] => ret bsky_dids
  | author :: authors' =>
      did <- lift (get author "platform_id") ;;
      if truthy did then
        let bsky_dids := (bsky_dids ++ [did])%list in
        a_id <- lift (get author "id") ;;
        a_name <- lift (get author "name") ;;
        a_context <- lift (get author "author_context") ;;
        roster_setitem did
          (VDict {[ "id" := a_id; "name" := a_name;
                    "author_context" := a_context ]}) ;;
        for_author_in authors' bsky_dids
      else for_author_in authors' bsky_dids
  end.

(** Lines 25-63. *)
Definition fetch_subscribed_authors : M (list pyval) :=
  let authors_endpoint := API_BASE_URL ++ "authors/bluesky" in
  log INFO (FetchingAuthors authors_endpoint) ;;
  try_except
    (response <- client_get authors_endpoint ;;
     lift (raise_for_status response) ;;
     authors <- lift (json response) ;;
     if negb (truthy authors) then
       log WARNING ApiReturnedNoAuthors ;;
       ret []
     else
       roster_clear ;;
       items <- lift (iterate authors) ;;
       bsky_dids <- for_author_in items [] ;;
       log INFO (FetchedAuthors (length bsky_dids)) ;;
       ret bsky_dids)
    (fun e =>
       match e with
       | RequestError =>
           Some (log ERROR (ErrorFetchingAuthors e) ;; ret [])
       | JSONDecodeError =>
           Some (log ERROR FailedToDecodeJsonResponse ;; ret [])
       | _ =>
           if is_Exception e
           then Some (log ERROR (UnexpectedFetchError e) ;; ret [])
           else None
       end).

(** Lines 100-118: the request to the workflow API and its two handlers. *)
Definition trigger_workflow (author_id post_text : pyval) : M unit :=
  let trigger_workflow_url :=
    API_BASE_URL ++ "process-tweet/trigger-workflow" in
  let payload :=
    VDict {[ "tweet_author_id" := author_id; "tweet_content" := post_text ]} in
  try_except
    (log INFO (SendingPost trigger_workflow_url) ;;
     response <- client_post trigger_workflow_url payload ;;
     lift (raise_for_status response) ;;
     log INFO (TriggeredWorkflow (status_code response)))
    (fun e =>
       match e with
       | HTTPStatusError code body =>
           Some (log ERROR (ApiRequestFailed code body))
       | RequestError => Some (log ERROR (WorkflowApiError e))
       | _ => None
       end).

(** Lines 85-118: what the [try] of the loop body does with one message. *)
Definition process_message (message : string) : M unit :=
  data <- lift (json_loads message) ;;
  kind <- lift (get data "kind") ;;
  if eq_str kind "commit" then
    commit <- lift (get_default data "commit" (VDict ∅)) ;;
    operation <- lift (get commit "operation") ;;
    if eq_str operation "create" then
      did <- lift (get data "did") ;;
      author_info <- roster_get did (VDict ∅) ;;
      author_id <- lift (get author_info "id") ;;
      collection <- lift (get_default commit "collection" (VStr "N/A")) ;;
      if eq_str collection "app.bsky.feed.post" then
        record <- lift (get_default commit "record" (VDict ∅)) ;;
        post_text <- lift (get_default record "text" (VStr EmptyString)) ;;
        post_text_100 <- lift (slice_to 100 post_text) ;;
        log INFO (NewPost author_id post_text_100) ;;
        if truthy author_id && truthy post_text
        then trigger_workflow author_id post_text
        else ret tt
      else ret tt
    else ret tt
  else ret tt.

(** Lines 120-123: the [except] clauses around it. *)
Definition message_handlers (e : exn) : option (M unit) :=
  match e with
  | JSONDecodeError => Some (log WARNING CouldNotDecodeJson)
  | _ =>
      if is_Exception e
      then Some (log ERROR (MessageProcessingError e))
      else None
  end.

(** Lines 84-123: the body of [async for message in websocket]. *)
Definition on_message (message : string) : M unit :=
  try_except (process_message message) message_handlers.

(** Line 83: [async for message in websocket], over the messages the
    connection delivers before it ends. *)
Fixpoint listen (messages : list string) (ending : stream_end) : M unit :=
  match messages with
  | [] =>
      match ending with
      | Exhausted => ret tt
      | Broken e => raise e
      end
  | message :: messages' =>
      on_message message ;;
      listen messages' ending
  end.

(** Lines 81-83: connect, then listen until the connection ends. *)
Definition connect_and_listen (subscribed_dids : list pyval) (s : session)
  : M unit :=
  emit (WsConnect WEBSOCKET_BASE_URL subscribed_dids) ;;
  match s with
  | Refused e => raise e
  | Established messages ending =>
      log INFO WorkerConnected ;;
      listen messages ending
  end.

(** Lines 125-129: the [except] clauses of the [while True] body. *)
Definition disconnect_handlers (e : exn) : option (M unit) :=
  match e with
  | ConnectionClosed => Some (log WARNING ConnectionClosedReconnecting)
  | _ =>
      if is_Exception e
      then Some (log ERROR (WebsocketClientError e) ;; sleep 10)
      else None
  end.

(** Lines 80-131: the body of [while True]. *)
Definition loop_body (subscribed_dids : list pyval) (s : session) : M unit :=
  try_except (connect_and_listen subscribed_dids s) disconnect_handlers ;;
  sleep 5.

(** Lines 79-131: [while True], one iteration per session of the feed. *)
Fixpoint while_true (subscribed_dids : list pyval) (feed : list session)
  : M client_exit :=
  match feed with
  | [] => ret Looping
  | s :: feed' =>
      loop_body subscribed_dids s ;;
      while_true subscribed_dids feed'
  end.

(** Lines 66-131. *)
Definition websocket_client (subscribed_dids : list pyval)
  (feed : list session) : M client_exit :=
  if negb (truthy (VList subscribed_dids)) then
    log WARNING NoAuthorsToSubscribe ;;
    ret Returned
  else while_true subscribed_dids feed.

(** Lines 133-137. *)
Definition main (feed : list session) : M client_exit :=
  log INFO WorkerStarting ;;
  subscribed_dids <- fetch_subscribed_authors ;;
  websocket_client subscribed_dids feed.

End Worker.

(** ** Reading a run *)

(** The bodies of the workflow requests among the events, in order. *)
Definition forward_calls (evs : list event) : list pyval :=
  omap (λ ev, match ev with HttpPost _ body _ _ => Some body | _ => None end)
       evs.

(** The websocket connections opened among the events. *)
Definition connections (evs : list event) : list (list pyval) :=
  omap (λ ev, match ev with WsConnect _ dids => Some dids | _ => None end) evs.

(** The time slept over the events. *)
Definition total_sleep (evs : list event) : Z :=
  foldr (λ ev acc, match ev with Sleep t => t + acc | _ => acc end) 0 evs.

(** The entries logged at [ERROR] among the events. *)
Definition errors_logged (evs : list event) : list logmsg :=
  omap (λ ev, match ev with Log ERROR msg => Some msg | _ => None end) evs.

(** [v[key]] when [v] is a [dict] that has [key]. *)
Definition field (v : pyval) (key : string) : option pyval :=
  match v with
  | VDict d => d !! key
  | _ => None
  end.

(** The body of a workflow request. *)
Definition trigger_payload (author_id post_text : pyval) : pyval :=
  VDict {[ "tweet_author_id" := author_id; "tweet_content" := post_text ]}.

Definition is_log (ev : event) : bool :=
  match ev with
  | Log _ _ => true
  | _ => false
  end.

(** *** The roster answer *)

(** What lines 38-40 bind to [authors]: the decoded answer of the control
    API, unless the request, the status check or the decoding raises. *)
Definition fetched (authors_api : http_reply) : result pyval :=
  match authors_api with
  | Fails e => Raise e
  | Replies resp =>
      match raise_for_status resp with
      | Raise e => Raise e
      | Ok _ => json resp
      end
  end.

(** The items the loop of line 46 goes through. *)
Definition entries_of (authors : pyval) : list pyval :=
  match iterate authors with
  | Ok items => items
  | Raise _ => []
  end.

(** [author.get('platform_id')] of an entry that is an object. *)
Definition platform_id (author : pyval) : pyval :=
  default VNone (field author "platform_id").

(** The identity record lines 50-54 store for an entry. *)
Definition identity_record (author : pyval) : pyval :=
  VDict {[ "id" := default VNone (field author "id");
           "name" := default VNone (field author "name");
           "author_context" := default VNone (field author "author_context") ]}.

(** An entry the loop can process: an object whose platform id, when it has
    one, can be a dictionary key. *)
Definition is_entry (author : pyval) : Prop :=
  (exists d, author = VDict d)
  /\ (truthy (platform_id author) = true ->
      exists key, hash_key (platform_id author) = Ok key).

(** The key and record an entry contributes: none when its platform id is
    absent or otherwise falsy. *)
Definition roster_entry (author : pyval) : option (hkey * pyval) :=
  if truthy (platform_id author) then
    match hash_key (platform_id author) with
    | Ok key => Some (key, identity_record author)
    | Raise _ => None
    end
  else None.

(** The mapping the entries decode to, taken in order: an entry with a
    platform id is stored under it, in place of what was stored there. *)
Definition add_entry (m : gmap hkey pyval) (author : pyval) : gmap hkey pyval :=
  match roster_entry author with
  | Some (key, record) => <[key := record]> m
  | None => m
  end.

Definition decoded_roster (items : list pyval) : gmap hkey pyval :=
  foldl add_entry ∅ items.

(** The platform ids of the entries that have one, once per entry. *)
Definition subscription_keys (items : list pyval) : list pyval :=
  platform_id <$> filter (λ author, truthy (platform_id author) = true) items.

(** The two events every load starts with (lines 32 and 38). *)
Definition fetch_prefix (API_BASE_URL : string) (ADMIN_API_KEY : option string)
  : list event :=
  [Log INFO (FetchingAuthors (API_BASE_URL ++ "authors/bluesky"));
   HttpGet (API_BASE_URL ++ "authors/bluesky")
           (authorization ADMIN_API_KEY) 10].

(** *** Workflow requests that fail *)

(** The exception a workflow request ends with when it fails by an HTTP
    status error or a transport error: [client.post] raises one of the two,
    or the answer has a status that [raise_for_status] rejects. *)
Definition forward_failure (reply : http_reply) : option exn :=
  match reply with
  | Fails (HTTPStatusError code body) => Some (HTTPStatusError code body)
  | Fails RequestError => Some RequestError
  | Fails _ => None
  | Replies resp =>
      match raise_for_status resp with
      | Raise e => Some e
      | Ok _ => None
      end
  end.

(** The entry logged for such a failure (lines 116 and 118). *)
Definition error_entry (e : exn) : logmsg :=
  match e with
  | HTTPStatusError code body => ApiRequestFailed code body
  | _ => WorkflowApiError e
  end.

(** *** The load as the specification describes it *)

(** After a load the roster holds exactly the records decoded from the
    answer, or it is what it was before. *)
Definition atomic_load (API_BASE_URL : string) (ADMIN_API_KEY : option string)
  (authors_api : http_reply) (st : state) : Prop :=
  let after :=
    SUBSCRIBED_AUTHORS_DATA
      (state_after
         (fetch_subscribed_authors API_BASE_URL ADMIN_API_KEY authors_api st)) in
  after = SUBSCRIBED_AUTHORS_DATA st
  \/ exists authors,
       fetched authors_api = Ok authors
       /\ after = decoded_roster (entries_of authors).

(** *** The waits as the specification describes them *)

(** A session that a transport error ended: the connection was established
    and the read of line 83 raised an [Exception]. [websockets] raises
    [ConnectionClosedError], which is a [ConnectionClosed], when the
    connection ends in any way but a clean close, and lets other errors of
    the transport through as they are. *)
Definition error_disconnect (s : session) : Prop :=
  exists messages e,
    s = Established messages (Broken e) /\ is_Exception e = true.

(** A session that the remote end closed cleanly: line 83 ends without an
    exception. *)
Definition clean_close (s : session) : Prop :=
  exists messages, s = Established messages Exhausted.

(** After every error disconnect the worker sleeps longer, before it goes
    round [while True] again, than after any clean close. *)
Definition error_waits_longer (API_BASE_URL : string)
  (ADMIN_API_KEY : option string) (json_loads : string -> result pyval)
  (workflow_api : nat -> pyval -> http_reply) (subscribed_dids : list pyval)
  : Prop :=
  forall failed clean st st',
    error_disconnect failed ->
    clean_close clean ->
    returned (loop_body API_BASE_URL ADMIN_API_KEY json_loads workflow_api
                subscribed_dids failed st) = Ok tt ->
    returned (loop_body API_BASE_URL ADMIN_API_KEY json_loads workflow_api
                subscribed_dids clean st') = Ok tt ->
    (total_sleep
       (events (loop_body API_BASE_URL ADMIN_API_KEY json_loads workflow_api
                  subscribed_dids clean st'))
     < total_sleep
         (events (loop_body API_BASE_URL ADMIN_API_KEY json_loads workflow_api
                    subscribed_dids failed st)))%Z.

(** ** The scenarios of the specification *)

Module Scenario.

Definition base_url : string := "https://api.example/".
Definition api_key : option string := Some "secret".

(** The roster answer
    [[{"platform_id":"did:abc","id":42,"name":"A","author_context":null}]]. *)
Definition authors : pyval :=
  VList [VDict {[ "platform_id" := VStr "did:abc"; "id" := VInt 42;
                  "name" := VStr "A"; "author_context" := VNone ]}].

Definition authors_reply : http_reply :=
  Replies (Response 200 EmptyString (Ok authors)).

(** A stream message for a new post, and the same with another operation. *)
Definition post_of (operation text : string) : pyval :=
  VDict {[ "kind" := VStr "commit"; "did" := VStr "did:abc";
           "commit" := VDict {[ "operation" := VStr operation;
                                "collection" := VStr "app.bsky.feed.post";
                                "record" := VDict {[ "text" := VStr text ]} ]} ]}.

(** The decoder on the messages of the scenarios, named by a short text;
    every other text is not JSON. *)
Definition loads (message : string) : result pyval :=
  if String.eqb message "create hello" then Ok (post_of "create" "hello")
  else if String.eqb message "update hello" then Ok (post_of "update" "hello")
  else if String.eqb message "create bye" then Ok (post_of "create" "bye")
  else Raise JSONDecodeError.

(** A workflow API that accepts every request. *)
Definition accepts : nat -> pyval -> http_reply :=
  fun _ _ => Replies (Response 200 "ok" (Ok VNone)).

(** The state the module starts in (line 22). *)
Definition initial : state := State ∅ 0.

(** The state after the roster of the scenario is loaded. *)
Definition loaded : state :=
  state_after (fetch_subscribed_authors base_url api_key authors_reply initial).

(** The parts of the new-post message, and the record the roster holds for
    its author. *)
Definition hello_record : pyval := VDict {[ "text" := VStr "hello" ]}.

Definition hello_commit (operation : string) : pyval :=
  VDict {[ "operation" := VStr operation;
           "collection" := VStr "app.bsky.feed.post";
           "record" := hello_record ]}.

Definition abc_info : pyval :=
  VDict {[ "id" := VInt 42; "name" := VStr "A"; "author_context" := VNone ]}.

(** A workflow API that is down: every request is answered 503. *)
Definition unavailable : nat -> pyval -> http_reply :=
  fun _ _ => Replies (Response 503 "unavailable" (Ok VNone)).

(** A roster answer with no author, one that cannot be reached, and one
    whose author has the internal id 0. *)
Definition no_authors_reply : http_reply :=
  Replies (Response 200 EmptyString (Ok (VList []))).

Definition unreachable : http_reply := Fails RequestError.

Definition zero_id_reply : http_reply :=
  Replies (Response 200 EmptyString
    (Ok (VList [VDict {[ "platform_id" := VStr "did:abc"; "id" := VInt 0 ]}]))).

(** A roster answer
    [[{"platform_id":"did:a","id":1}, 5, {"platform_id":"did:b","id":2}]],
    whose second item is not an object. *)
Definition entry_a : pyval :=
  VDict {[ "platform_id" := VStr "did:a"; "id" := VInt 1 ]}.

Definition entry_b : pyval :=
  VDict {[ "platform_id" := VStr "did:b"; "id" := VInt 2 ]}.

Definition broken_reply : http_reply :=
  Replies (Response 200 EmptyString (Ok (VList [entry_a; VInt 5; entry_b]))).




End Scenario.

(** *** More readers of a run *)

(** The URLs of the roster requests among the events. *)
Definition roster_requests (evs : list event) : list string :=
  omap (λ ev, match ev with HttpGet url _ _ => Some url | _ => None end) evs.

(** *** The roster the load builds *)

(** Every record of the roster is the identity record of an entry, stored
    under the key of that entry's platform id, which is truthy. *)
Definition roster_invariant (roster : gmap hkey pyval) : Prop :=
  forall key info,
    roster !! key = Some info ->
    exists author,
      info = identity_record author
      /\ truthy (platform_id author) = true
      /\ hash_key (platform_id author) = Ok key.

(** The truth value of the values that hash to a key. *)
Definition key_truthy (key : hkey) : bool :=
  match key with
  | KNone => false
  | KStr s => negb (String.eqb s EmptyString)
  | KInt z => negb (Z.eqb z 0)
  | KFloat _ => true
  end.

(** *** The pace of the loop *)

(** Events that go session by session: a connection for the subscribed
    dids, then events that neither connect nor sleep, then the sleep of line
    131 alone or after the sleep of line 129, and then the next session. *)
Inductive paced (subscribed_dids : list pyval) : list event -> Prop :=
| paced_done : paced subscribed_dids []
| paced_session body wait rest :
    connections body = [] ->
    total_sleep body = 0%Z ->
    wait = [Sleep 5] \/ wait = [Sleep 10; Sleep 5] ->
    paced subscribed_dids rest ->
    paced subscribed_dids
      (WsConnect WEBSOCKET_BASE_URL subscribed_dids :: body ++ wait ++ rest)%list.

(** *** The events the worker can cause *)

(** What an event of the worker looks like: a roster request goes to the
    roster endpoint and a workflow request to the workflow endpoint, both
    under the base URL and with the bearer header; a workflow request
    carries a truthy author id and a truthy text; a connection goes to the
    jetstream endpoint with at least one did; a sleep lasts 5 or 10. *)
Definition expected_event (API_BASE_URL : string)
  (ADMIN_API_KEY : option string) (ev : event) : Prop :=
  match ev with
  | Log _ _ => True
  | HttpGet url auth timeout =>
      url = API_BASE_URL ++ "authors/bluesky"
      /\ auth = authorization ADMIN_API_KEY
      /\ timeout = 10
  | HttpPost url body auth timeout =>
      url = API_BASE_URL ++ "process-tweet/trigger-workflow"
      /\ auth = authorization ADMIN_API_KEY
      /\ timeout = 15
      /\ exists author_id post_text,
           body = trigger_payload author_id post_text
           /\ truthy author_id = true
           /\ truthy post_text = true
  | WsConnect base_url dids =>
      base_url = WEBSOCKET_BASE_URL /\ dids <> nil
  | Sleep seconds => seconds = 5 \/ seconds = 10
  end.

(** The events of the websocket client: expected ones, and no roster
    request among them. *)
Definition client_events (API_BASE_URL : string)
  (ADMIN_API_KEY : option string) (evs : list event) : Prop :=
  Forall (expected_event API_BASE_URL ADMIN_API_KEY) evs
  /\ roster_requests evs = nil.

(** ** Scenarios at the edges *)

Module Edge.

(** A new post by "did:abc" whose text is the number 5, and a new post that
    names no did. *)
Definition numbered_post : pyval :=
  VDict {[ "kind" := VStr "commit"; "did" := VStr "did:abc";
           "commit" := VDict {[ "operation" := VStr "create";
                                "collection" := VStr "app.bsky.feed.post";
                                "record" := VDict {[ "text" := VInt 5 ]} ]} ]}.

Definition anonymous_post : pyval :=
  VDict {[ "kind" := VStr "commit";
           "commit" := Scenario.hello_commit "create" ]}.

(** A text of 101 letters e with an acute accent: 101 characters for
    Python, 202 bytes in UTF-8 (195 and 169 for each letter). *)
Definition e_acute : string :=
  String (Ascii.ascii_of_nat 195) (String (Ascii.ascii_of_nat 169) EmptyString).

Fixpoint repeated (n : nat) (s : string) : string :=
  match n with
  | O => EmptyString
  | S n' => (s ++ repeated n' s)%string
  end.

Definition long_text : string := repeated 101 e_acute.

(** The decoder of the scenarios, with these messages added. *)
Definition loads (message : string) : result pyval :=
  if String.eqb message "create 5" then Ok numbered_post
  else if String.eqb message "create anonymous" then Ok anonymous_post
  else if String.eqb message "create long"
       then Ok (Scenario.post_of "create" long_text)
  else Scenario.loads message.

(** A workflow request that is cancelled, and one that fails with an
    exception of its own kind. *)
Definition cancelled : nat -> pyval -> http_reply :=
  fun _ _ => Fails NonException.

Definition misconfigured : nat -> pyval -> http_reply :=
  fun _ _ => Fails OtherException.

(** A control API that rejects the key, and a roster request that is
    cancelled. *)
Definition unauthorized : http_reply :=
  Replies (Response 401 "unauthorized" (Ok VNone)).

Definition interrupted : http_reply := Fails NonException.

(** A feed of three sessions: one closed after a post, one refused, one
    that ends without an exception. *)
Definition three_sessions : list session :=
  [Established ["create hello"] (Broken ConnectionClosed);
   Refused OtherException;
   Established ["not json"; "create bye"] Exhausted].

End Edge.

(** ** Properties *)

Local Open Scope list_scope.

(** *** Reading runs *)

Lemma forward_calls_app evs evs' :
  forward_calls (evs ++ evs') = forward_calls evs ++ forward_calls evs'.
Proof. apply omap_app. Qed.

Lemma connections_app evs evs' :
  connections (evs ++ evs') = connections evs ++ connections evs'.
Proof. apply omap_app. Qed.

Lemma total_sleep_app evs evs' :
  total_sleep (evs ++ evs') = (total_sleep evs + total_sleep evs')%Z.
Proof.
  induction evs as [|ev evs IH]; simpl; [done|].
  destruct ev; rewrite ?IH; lia.
Qed.

Lemma logs_only evs :
  forallb is_log evs = true ->
  forward_calls evs = [] /\ connections evs = [] /\ total_sleep evs = 0%Z.
Proof.
  induction evs as [|ev evs IH]; simpl; [done|].
  destruct ev; simpl; try discriminate. exact IH.
Qed.

Lemma eq_str_true v s : eq_str v s = true -> v = VStr s.
Proof.
  destruct v; simpl; try discriminate.
  intros H. apply String.eqb_eq in H. by subst.
Qed.

Lemma truthy_str s : s <> EmptyString -> truthy (VStr s) = true.
Proof.
  intros Hs. simpl. destruct (String.eqb s EmptyString) eqn:E; [|done].
  apply String.eqb_eq in E. contradiction.
Qed.

Lemma hash_key_raises v e : hash_key v = Raise e -> e = TypeError.
Proof. destruct v; simpl; congruence. Qed.

Lemma slice_to_raises n v e : slice_to n v = Raise e -> e = TypeError.
Proof. destruct v; simpl; congruence. Qed.

Lemma trigger_payload_fields author_id post_text :
  field (trigger_payload author_id post_text) "tweet_author_id" = Some author_id
  /\ field (trigger_payload author_id post_text) "tweet_content" = Some post_text.
Proof.
  unfold trigger_payload, field. split.
  - apply lookup_insert_eq.
  - rewrite lookup_insert_ne by done. apply lookup_singleton_eq.
Qed.

Section Properties.

Variable API_BASE_URL : string.
Variable ADMIN_API_KEY : option string.
Variable json_loads : string -> result pyval.
Variable authors_api : http_reply.
Variable workflow_api : nat -> pyval -> http_reply.

Abbreviation trigger_workflow :=
  (trigger_workflow API_BASE_URL ADMIN_API_KEY workflow_api).
Abbreviation process_message :=
  (process_message API_BASE_URL ADMIN_API_KEY json_loads workflow_api).
Abbreviation on_message :=
  (on_message API_BASE_URL ADMIN_API_KEY json_loads workflow_api).
Abbreviation listen :=
  (listen API_BASE_URL ADMIN_API_KEY json_loads workflow_api).
Abbreviation connect_and_listen :=
  (connect_and_listen API_BASE_URL ADMIN_API_KEY json_loads workflow_api).
Abbreviation loop_body :=
  (loop_body API_BASE_URL ADMIN_API_KEY json_loads workflow_api).
Abbreviation while_true :=
  (while_true API_BASE_URL ADMIN_API_KEY json_loads workflow_api).
Abbreviation websocket_client :=
  (websocket_client API_BASE_URL ADMIN_API_KEY json_loads workflow_api).
Abbreviation fetch_subscribed_authors :=
  (fetch_subscribed_authors API_BASE_URL ADMIN_API_KEY authors_api).
Abbreviation main :=
  (main API_BASE_URL ADMIN_API_KEY json_loads authors_api workflow_api).

(** *** The workflow request *)

(** Whatever the workflow API answers, one request goes out, carrying the
    payload; the roster is not touched and nothing is slept or connected. *)
Lemma trigger_workflow_always author_id post_text st :
  let r := trigger_workflow author_id post_text st in
  forward_calls (events r) = [trigger_payload author_id post_text]
  /\ state_after r =
       State (SUBSCRIBED_AUTHORS_DATA st) (S (requests_issued st))
  /\ connections (events r) = []
  /\ total_sleep (events r) = 0%Z.
Proof.
  unfold trigger_workflow, try_except, bind, log, emit, client_post, lift,
    raise_for_status, trigger_payload; simpl.
  repeat (case_match; simpl in *; simplify_eq); done.
Qed.

(** A request that fails by a status or transport error ends in one
    [ERROR] entry, and [trigger_workflow] returns normally. *)
Lemma trigger_workflow_failure author_id post_text st e :
  forward_failure
    (workflow_api (requests_issued st) (trigger_payload author_id post_text))
    = Some e ->
  trigger_workflow author_id post_text st =
    Run [Log INFO
           (SendingPost (API_BASE_URL ++ "process-tweet/trigger-workflow")%string);
         HttpPost (API_BASE_URL ++ "process-tweet/trigger-workflow")%string
                  (trigger_payload author_id post_text)
                  (authorization ADMIN_API_KEY) 15;
         Log ERROR (error_entry e)]
        (State (SUBSCRIBED_AUTHORS_DATA st) (S (requests_issued st)))
        (Ok tt).
Proof.
  unfold trigger_workflow, try_except, bind, log, emit, client_post, lift,
    forward_failure, raise_for_status, trigger_payload; simpl.
  intros H.
  repeat (case_match; simpl in *; simplify_eq); done.
Qed.

(** *** One message *)

Ltac dropped :=
  left; split_and!;
  [done | done | done | by (intros ? ?; simplify_eq; auto)].

Ltac dropped_by_cases :=
  repeat (case_match; simpl in *; simplify_eq);
  repeat match goal with
         | H : slice_to _ _ = Raise _ |- _ => apply slice_to_raises in H as ->
         end;
  dropped.

(** What [process_message] can do: either it forwards nothing and leaves the
    state alone, or every filter of lines 86-99 passed and it logs the post
    and hands it to [trigger_workflow]. *)
Lemma process_message_cases message st :
  (forward_calls (events (process_message message st)) = []
   /\ state_after (process_message message st) = st
   /\ forallb is_log (events (process_message message st)) = true
   /\ (forall e, returned (process_message message st) = Raise e ->
         json_loads message = Raise e \/ is_Exception e = true))
  \/ (exists data commit record did key info author_id post_text post_text_100,
        json_loads message = Ok data /\
        field data "kind" = Some (VStr "commit") /\
        field data "commit" = Some commit /\
        field commit "operation" = Some (VStr "create") /\
        did = default VNone (field data "did") /\
        hash_key did = Ok key /\
        SUBSCRIBED_AUTHORS_DATA st !! key = Some info /\
        field info "id" = Some author_id /\
        truthy author_id = true /\
        field commit "collection" = Some (VStr "app.bsky.feed.post") /\
        field commit "record" = Some record /\
        field record "text" = Some post_text /\
        truthy post_text = true /\
        slice_to 100 post_text = Ok post_text_100 /\
        process_message message st =
          (log INFO (NewPost author_id post_text_100) ;;
           trigger_workflow author_id post_text) st).
Proof.
  destruct (json_loads message) as [data|e] eqn:Hload.
  2:{ unfold process_message, bind, lift; rewrite Hload; simpl. dropped. }
  destruct (field data "kind") as [kind|] eqn:Hkind.
  2:{ unfold process_message, bind, lift; rewrite Hload; simpl.
      destruct data; simpl in *; try dropped. rewrite Hkind. dropped. }
  destruct data as [| | | | | |d]; try discriminate. simpl in Hkind.
  unfold process_message, bind, lift, get, get_default, roster_get, log, emit,
    ret.
  rewrite Hload; simpl. rewrite Hkind; simpl.
  destruct (eq_str kind "commit") eqn:Hk; [|dropped].
  apply eq_str_true in Hk; subst kind.
  destruct (d !! "commit") as [commit|] eqn:Hcommit; simpl; [|dropped].
  destruct commit as [| | | | | |c]; simpl; try dropped.
  destruct (c !! "operation") as [op|] eqn:Hop; simpl; [|dropped].
  destruct (eq_str op "create") eqn:Ho; [|dropped].
  apply eq_str_true in Ho; subst op.
  destruct (hash_key (default VNone (d !! "did"))) as [key|e] eqn:Hkey; simpl;
    [|apply hash_key_raises in Hkey as ->; dropped].
  destruct (SUBSCRIBED_AUTHORS_DATA st !! key) as [info|] eqn:Hinfo; simpl.
  2:{ rewrite lookup_empty; simpl. dropped_by_cases. }
  destruct info as [| | | | | |i]; simpl; try dropped.
  destruct (i !! "id") as [author_id|] eqn:Hid; simpl.
  2:{ dropped_by_cases. }
  destruct (c !! "collection") as [coll|] eqn:Hcoll; simpl; [|dropped].
  destruct (eq_str coll "app.bsky.feed.post") eqn:Hc; [|dropped].
  apply eq_str_true in Hc; subst coll.
  destruct (c !! "record") as [record|] eqn:Hrec; simpl;
    [|rewrite lookup_empty; simpl; rewrite andb_false_r; dropped].
  destruct record as [| | | | | |rc]; simpl; try dropped.
  destruct (rc !! "text") as [post_text|] eqn:Htext; simpl;
    [|rewrite andb_false_r; dropped].
  destruct (slice_to 100 post_text) as [p100|e] eqn:Hslice; simpl;
    [|apply slice_to_raises in Hslice as ->; dropped].
  destruct (truthy author_id) eqn:Ha; simpl; [|dropped].
  destruct (truthy post_text) eqn:Ht; simpl; [|dropped].
  right.
  exists (VDict d), (VDict c), (VDict rc), (default VNone (d !! "did")), key,
    (VDict i), author_id, post_text, p100.
  split_and!; try done.
  by destruct (trigger_workflow _ _ _).
Qed.

(** A decoding failure is all [process_message] does with the message. *)
Lemma process_message_undecodable message st e :
  json_loads message = Raise e ->
  process_message message st = Run [] st (Raise e).
Proof.
  intros H. unfold process_message, bind, lift. by rewrite H.
Qed.

(** Logging a post and triggering the workflow: one request, the roster
    kept, no sleep and no connection. *)
Lemma log_then_trigger author_id post_text logged st :
  let r := (log INFO logged ;; trigger_workflow author_id post_text) st in
  forward_calls (events r) = [trigger_payload author_id post_text]
  /\ state_after r =
       State (SUBSCRIBED_AUTHORS_DATA st) (S (requests_issued st))
  /\ connections (events r) = []
  /\ total_sleep (events r) = 0%Z.
Proof.
  intros r. subst r.
  destruct (trigger_workflow_always author_id post_text st)
    as (Hc & Hs & Hn & Ht).
  unfold bind, log, emit.
  destruct (trigger_workflow author_id post_text st) as [evs st' [[]|e]];
    simpl in *; done.
Qed.

(** The handlers of lines 120-123 only add a log entry. *)
Lemma on_message_returns message st :
  returned (process_message message st) = Ok tt ->
  on_message message st = process_message message st.
Proof.
  unfold on_message, try_except.
  destruct (process_message message st) as [evs st' [[]|e]]; simpl; done.
Qed.

Lemma on_message_catches message st e :
  returned (process_message message st) = Raise e ->
  is_Exception e = true ->
  exists lvl msg,
    on_message message st =
      Run (events (process_message message st) ++ [Log lvl msg])
          (state_after (process_message message st)) (Ok tt).
Proof.
  unfold on_message, try_except.
  destruct (process_message message st) as [evs st' [[]|e']]; simpl;
    intros H He; simplify_eq.
  destruct e; simpl in *; try discriminate; eauto.
Qed.

Lemma on_message_lets_through message st e :
  returned (process_message message st) = Raise e ->
  is_Exception e = false ->
  on_message message st = process_message message st.
Proof.
  unfold on_message, try_except.
  destruct (process_message message st) as [evs st' [[]|e']]; simpl;
    intros H He; simplify_eq.
  destruct e; simpl in *; try discriminate; eauto.
Qed.

Lemma on_message_effects message st :
  forward_calls (events (on_message message st)) =
    forward_calls (events (process_message message st))
  /\ connections (events (on_message message st)) =
      connections (events (process_message message st))
  /\ total_sleep (events (on_message message st)) =
      total_sleep (events (process_message message st))
  /\ state_after (on_message message st) =
      state_after (process_message message st).
Proof.
  destruct (returned (process_message message st)) as [[]|e] eqn:Hr.
  - by rewrite on_message_returns.
  - destruct (is_Exception e) eqn:He.
    + destruct (on_message_catches _ _ _ Hr He) as (lvl & msg & ->). simpl.
      rewrite forward_calls_app, connections_app, total_sleep_app. simpl.
      rewrite !app_nil_r. split_and!; try done. lia.
    + by rewrite (on_message_lets_through _ _ _ Hr He).
Qed.

(** Under the hypotheses of a new post by a rostered author, the message is
    logged and handed to [trigger_workflow]. *)
Lemma process_message_new_post
  message data commit record did key info author_id post_text st :
  json_loads message = Ok data ->
  field data "kind" = Some (VStr "commit") ->
  field data "commit" = Some commit ->
  field commit "operation" = Some (VStr "create") ->
  field data "did" = Some did ->
  hash_key did = Ok key ->
  SUBSCRIBED_AUTHORS_DATA st !! key = Some info ->
  field info "id" = Some author_id ->
  truthy author_id = true ->
  field commit "collection" = Some (VStr "app.bsky.feed.post") ->
  field commit "record" = Some record ->
  field record "text" = Some (VStr post_text) ->
  post_text <> EmptyString ->
  exists logged,
    process_message message st =
      (log INFO logged ;; trigger_workflow author_id (VStr post_text)) st.
Proof.
  intros Hload Hkind Hcommit Hop Hdid Hkey Hinfo Hid Ha Hcoll Hrec Htext Hne.
  destruct data as [| | | | | |d]; try discriminate.
  destruct commit as [| | | | | |c]; try discriminate.
  destruct record as [| | | | | |rc]; try discriminate.
  destruct info as [| | | | | |i]; try discriminate.
  simpl in *.
  eexists.
  unfold process_message, bind, lift, get, get_default, roster_get, log, emit,
    ret.
  rewrite Hload; simpl. rewrite Hkind; simpl.
  rewrite Hcommit; simpl. rewrite Hop; simpl.
  rewrite Hdid; simpl. rewrite Hkey; simpl. rewrite Hinfo; simpl.
  rewrite Hid; simpl. rewrite Hcoll; simpl. rewrite Hrec; simpl.
  rewrite Htext; simpl. rewrite Ha; simpl.
  pose proof (truthy_str _ Hne) as Ht. simpl in Ht. rewrite Ht.
  by destruct (trigger_workflow _ _ _).
Qed.

(** C1. A stream message of kind "commit" and operation "create", whose
    emitting key is in the roster with a non-empty internal id, whose
    collection is "app.bsky.feed.post" and whose record carries a non-empty
    text, makes the dispatcher issue exactly one workflow request; its
    [tweet_author_id] is the resolved internal id and its [tweet_content] is
    the text of the record. *)
Theorem new_post_is_forwarded_once
  message data commit record did key info author_id post_text st :
  json_loads message = Ok data ->
  field data "kind" = Some (VStr "commit") ->
  field data "commit" = Some commit ->
  field commit "operation" = Some (VStr "create") ->
  field data "did" = Some did ->
  hash_key did = Ok key ->
  SUBSCRIBED_AUTHORS_DATA st !! key = Some info ->
  field info "id" = Some author_id ->
  truthy author_id = true ->
  field commit "collection" = Some (VStr "app.bsky.feed.post") ->
  field commit "record" = Some record ->
  field record "text" = Some (VStr post_text) ->
  post_text <> EmptyString ->
  exists payload,
    forward_calls (events (on_message message st)) = [payload]
    /\ field payload "tweet_author_id" = Some author_id
    /\ field payload "tweet_content" = Some (VStr post_text).
Proof.
  intros Hload Hkind Hcommit Hop Hdid Hkey Hinfo Hid Ha Hcoll Hrec Htext Hne.
  exists (trigger_payload author_id (VStr post_text)).
  split; [|apply trigger_payload_fields].
  destruct (on_message_effects message st) as (-> & _).
  destruct (process_message_new_post _ _ _ _ _ _ _ _ _ st Hload Hkind Hcommit
              Hop Hdid Hkey Hinfo Hid Ha Hcoll Hrec Htext Hne) as (logged & ->).
  apply log_then_trigger.
Qed.

(** C2. A decoded stream message whose kind is not "commit", or whose
    operation is not "create", or whose collection is not
    "app.bsky.feed.post", causes no workflow request: the dispatcher at most
    logs, leaves the state as it was and returns. *)
Theorem other_messages_are_not_forwarded message data st :
  json_loads message = Ok data ->
  field data "kind" <> Some (VStr "commit")
  \/ (field data "commit" ≫= λ c, field c "operation")
       <> Some (VStr "create")
  \/ (field data "commit" ≫= λ c, field c "collection")
       <> Some (VStr "app.bsky.feed.post") ->
  forward_calls (events (on_message message st)) = []
  /\ forallb is_log (events (on_message message st)) = true
  /\ state_after (on_message message st) = st
  /\ returned (on_message message st) = Ok tt.
Proof.
  intros Hload Hno.
  destruct (process_message_cases message st)
    as [(Hc & Hs & Hl & He)
       |(data' & commit & record & did & key & info & author_id & post_text
         & p100 & Hload' & Hkind & Hcommit & Hop & _ & _ & _ & _ & _ & Hcoll
         & _)].
  - destruct (returned (process_message message st)) as [[]|e] eqn:Hr.
    + rewrite on_message_returns by done. done.
    + destruct (He e eq_refl) as [Hbad|Hexc]; [congruence|].
      destruct (on_message_catches _ _ _ Hr Hexc) as (lvl & msg & ->). simpl.
      rewrite forward_calls_app, Hc, forallb_app, Hl. done.
  - exfalso. rewrite Hload in Hload'. injection Hload' as <-.
    destruct Hno as [H|[H|H]]; apply H.
    + done.
    + rewrite Hcommit. done.
    + rewrite Hcommit. done.
Qed.

(** C9. A decoded stream message whose emitting key resolves to no roster
    entry, or to one whose internal id is falsy (0, null, missing), causes
    no workflow request, whatever its kind, operation, collection and
    text. *)
Theorem falsy_internal_id_is_not_forwarded message data st :
  json_loads message = Ok data ->
  (forall key info,
     hash_key (default VNone (field data "did")) = Ok key ->
     SUBSCRIBED_AUTHORS_DATA st !! key = Some info ->
     truthy (default VNone (field info "id")) = false) ->
  forward_calls (events (on_message message st)) = []
  /\ state_after (on_message message st) = st.
Proof.
  intros Hload Hfalsy.
  destruct (on_message_effects message st) as (-> & _ & _ & ->).
  destruct (process_message_cases message st)
    as [(Hc & Hs & _)
       |(data' & commit & record & did & key & info & author_id & post_text
         & p100 & Hload' & _ & _ & _ & -> & Hkey & Hinfo & Hid & Ha & _)].
  - done.
  - exfalso. rewrite Hload in Hload'. injection Hload' as <-.
    specialize (Hfalsy _ _ Hkey Hinfo). rewrite Hid in Hfalsy. simpl in Hfalsy.
    congruence.
Qed.

(** *** The messages of one connection *)

(** Once a message is dealt with, the loop goes on with the next one, from
    the state the message left. *)
Lemma listen_next message rest ending st :
  returned (on_message message st) = Ok tt ->
  listen (message :: rest) ending st =
    Run (events (on_message message st)
           ++ events (listen rest ending (state_after (on_message message st))))
        (state_after (listen rest ending (state_after (on_message message st))))
        (returned (listen rest ending (state_after (on_message message st)))).
Proof.
  simpl. unfold bind.
  destruct (on_message message st) as [evs st' [[]|e]]; simpl; [|done].
  intros _. by destruct (listen rest ending st').
Qed.

Lemma process_message_keeps_roster message st :
  SUBSCRIBED_AUTHORS_DATA (state_after (process_message message st)) =
    SUBSCRIBED_AUTHORS_DATA st.
Proof.
  destruct (process_message_cases message st)
    as [(_ & -> & _)
       |(data & commit & record & did & key & info & author_id & post_text
         & p100 & Hrest)]; [done|].
  destruct Hrest as (_ & _ & _ & _ & _ & _ & _ & _ & _ & _ & _ & _ & _ & _ & ->).
  by destruct (log_then_trigger author_id post_text (NewPost author_id p100) st)
    as (_ & -> & _).
Qed.

(** C6. When the workflow request a message causes fails with an HTTP status
    error or a transport error, the failure is logged at [ERROR] and the
    message is done with: nothing is raised, the request is not issued
    again, the roster is untouched, and the connection goes on to the
    messages that follow. *)
Theorem failed_forward_is_contained message rest ending st payload e :
  head (forward_calls (events (on_message message st))) = Some payload ->
  forward_failure (workflow_api (requests_issued st) payload) = Some e ->
  returned (on_message message st) = Ok tt
  /\ forward_calls (events (on_message message st)) = [payload]
  /\ errors_logged (events (on_message message st)) = [error_entry e]
  /\ state_after (on_message message st) =
       State (SUBSCRIBED_AUTHORS_DATA st) (S (requests_issued st))
  /\ listen (message :: rest) ending st =
       Run (events (on_message message st)
              ++ events (listen rest ending (state_after (on_message message st))))
           (state_after (listen rest ending (state_after (on_message message st))))
           (returned (listen rest ending (state_after (on_message message st)))).
Proof.
  intros Hcall Hfail.
  assert (exists logged,
            on_message message st =
              Run [Log INFO logged;
                   Log INFO (SendingPost
                     (API_BASE_URL ++ "process-tweet/trigger-workflow")%string);
                   HttpPost
                     (API_BASE_URL ++ "process-tweet/trigger-workflow")%string
                     payload (authorization ADMIN_API_KEY) 15;
                   Log ERROR (error_entry e)]
                  (State (SUBSCRIBED_AUTHORS_DATA st) (S (requests_issued st)))
                  (Ok tt)) as [logged Hrun].
  { destruct (on_message_effects message st) as (Hfc & _).
    destruct (process_message_cases message st)
      as [(Hc & _)
         |(data & commit & record & did & key & info & author_id & post_text
           & p100 & Hrest)].
    - rewrite Hfc, Hc in Hcall. discriminate.
    - destruct Hrest
        as (_ & _ & _ & _ & _ & _ & _ & _ & _ & _ & _ & _ & _ & _ & Heq).
      destruct (log_then_trigger author_id post_text (NewPost author_id p100) st)
        as (Hp & _).
      rewrite <- Heq in Hp. rewrite Hfc, Hp in Hcall. simpl in Hcall.
      injection Hcall as <-.
      exists (NewPost author_id p100).
      rewrite on_message_returns; rewrite Heq; unfold bind, log, emit;
        rewrite (trigger_workflow_failure _ _ _ _ Hfail); done. }
  split_and!.
  - by rewrite Hrun.
  - by rewrite Hrun.
  - by rewrite Hrun.
  - by rewrite Hrun.
  - apply listen_next. by rewrite Hrun.
Qed.

(** C7. A message whose processing raises an exception, the decoding of
    line 85 included, is logged and skipped: [on_message] adds one log entry
    and returns, the roster is as it was, and the connection goes on to the
    messages that follow. A message that does not decode leaves nothing but
    its log entry. *)
Theorem malformed_message_is_skipped message rest ending st e :
  returned (process_message message st) = Raise e ->
  is_Exception e = true ->
  returned (on_message message st) = Ok tt
  /\ (exists lvl msg,
        events (on_message message st) =
          events (process_message message st) ++ [Log lvl msg])
  /\ SUBSCRIBED_AUTHORS_DATA (state_after (on_message message st)) =
       SUBSCRIBED_AUTHORS_DATA st
  /\ (json_loads message = Raise e ->
       exists lvl msg, on_message message st = Run [Log lvl msg] st (Ok tt))
  /\ listen (message :: rest) ending st =
       Run (events (on_message message st)
              ++ events (listen rest ending (state_after (on_message message st))))
           (state_after (listen rest ending (state_after (on_message message st))))
           (returned (listen rest ending (state_after (on_message message st)))).
Proof.
  intros Hraise Hexc.
  destruct (on_message_catches _ _ _ Hraise Hexc) as (lvl & msg & Hrun).
  split_and!.
  - by rewrite Hrun.
  - exists lvl, msg. by rewrite Hrun.
  - rewrite Hrun. simpl. apply process_message_keeps_roster.
  - intros Hload. exists lvl, msg. rewrite Hrun.
    by rewrite (process_message_undecodable _ st _ Hload).
  - apply listen_next. by rewrite Hrun.
Qed.

(** *** One connection and the wait after it *)

Lemma process_message_quiet message st :
  connections (events (process_message message st)) = []
  /\ total_sleep (events (process_message message st)) = 0%Z.
Proof.
  destruct (process_message_cases message st)
    as [(_ & _ & Hl & _)
       |(data & commit & record & did & key & info & author_id & post_text
         & p100 & Hrest)].
  - by destruct (logs_only _ Hl) as (_ & ? & ?).
  - destruct Hrest as (_ & _ & _ & _ & _ & _ & _ & _ & _ & _ & _ & _ & _ & _ & ->).
    by destruct (log_then_trigger author_id post_text (NewPost author_id p100) st)
      as (_ & _ & ? & ?).
Qed.

(** While it listens, the worker neither sleeps nor connects. *)
Lemma listen_quiet messages ending st :
  connections (events (listen messages ending st)) = []
  /\ total_sleep (events (listen messages ending st)) = 0%Z.
Proof.
  revert st. induction messages as [|message rest IH]; intros st.
  - by destruct ending.
  - simpl. unfold bind.
    destruct (on_message_effects message st) as (_ & Hc & Hs & _).
    destruct (process_message_quiet message st) as (Hc' & Hs').
    rewrite Hc' in Hc. rewrite Hs' in Hs.
    destruct (on_message message st) as [evs st' [[]|e]]; simpl in *; [|done].
    destruct (IH st') as (Hc2 & Hs2).
    destruct (listen rest ending st') as [evs2 st2 r2]; simpl in *.
    rewrite connections_app, total_sleep_app, Hc, Hs, Hc2, Hs2. done.
Qed.

(** A pass through [connect_and_listen] opens one connection, for the
    subscribed dids, and does not sleep. *)
Lemma connect_and_listen_effects subscribed_dids s st :
  connections (events (connect_and_listen subscribed_dids s st))
    = [subscribed_dids]
  /\ total_sleep (events (connect_and_listen subscribed_dids s st)) = 0%Z.
Proof.
  unfold connect_and_listen, bind, emit, log.
  destruct s as [e|messages ending]; simpl; [done|].
  destruct (listen_quiet messages ending st) as (Hc & Hs).
  destruct (listen messages ending st) as [evs st' r]; simpl in *.
  by rewrite Hc, Hs.
Qed.

(** The body of [while True], by the way the connection ended. *)
Lemma loop_body_after_error subscribed_dids s st e :
  returned (connect_and_listen subscribed_dids s st) = Raise e ->
  is_Exception e = true ->
  e <> ConnectionClosed ->
  loop_body subscribed_dids s st =
    Run (events (connect_and_listen subscribed_dids s st)
           ++ [Log ERROR (WebsocketClientError e); Sleep 10; Sleep 5])
        (state_after (connect_and_listen subscribed_dids s st)) (Ok tt).
Proof.
  unfold loop_body, try_except, bind, sleep, log, emit.
  destruct (connect_and_listen subscribed_dids s st) as [evs st' [[]|e']];
    simpl; intros H He Hne; simplify_eq.
  destruct e; simpl in *; try done; by rewrite <- app_assoc.
Qed.

Lemma loop_body_after_close subscribed_dids s st :
  returned (connect_and_listen subscribed_dids s st) = Raise ConnectionClosed ->
  loop_body subscribed_dids s st =
    Run (events (connect_and_listen subscribed_dids s st)
           ++ [Log WARNING ConnectionClosedReconnecting; Sleep 5])
        (state_after (connect_and_listen subscribed_dids s st)) (Ok tt).
Proof.
  unfold loop_body, try_except, bind, sleep, log, emit.
  destruct (connect_and_listen subscribed_dids s st) as [evs st' [[]|e']];
    simpl; intros H; simplify_eq.
  simpl. by rewrite <- app_assoc.
Qed.

Lemma loop_body_after_end subscribed_dids s st :
  returned (connect_and_listen subscribed_dids s st) = Ok tt ->
  loop_body subscribed_dids s st =
    Run (events (connect_and_listen subscribed_dids s st) ++ [Sleep 5])
        (state_after (connect_and_listen subscribed_dids s st)) (Ok tt).
Proof.
  unfold loop_body, try_except, bind, sleep, log, emit.
  destruct (connect_and_listen subscribed_dids s st) as [evs st' [[]|e']];
    simpl; intros H; simplify_eq. done.
Qed.

(** *** Loading the roster *)

Lemma subscription_keys_cons author items :
  subscription_keys (author :: items) =
    if truthy (platform_id author)
    then platform_id author :: subscription_keys items
    else subscription_keys items.
Proof.
  unfold subscription_keys. rewrite filter_cons.
  destruct (decide (truthy (platform_id author) = true)) as [H|H].
  - by rewrite H.
  - apply not_true_is_false in H. by rewrite H.
Qed.

(** One turn of the loop of line 46. *)
Lemma for_author_in_object d items bsky_dids st :
  for_author_in (VDict d :: items) bsky_dids st =
    if truthy (platform_id (VDict d)) then
      match hash_key (platform_id (VDict d)) with
      | Ok key =>
          for_author_in items (bsky_dids ++ [platform_id (VDict d)])
            (State (<[key := identity_record (VDict d)]>
                      (SUBSCRIBED_AUTHORS_DATA st))
                   (requests_issued st))
      | Raise e => Run [] st (Raise e)
      end
    else for_author_in items bsky_dids st.
Proof.
  simpl for_author_in.
  change (default VNone (d !! "platform_id")) with (platform_id (VDict d)).
  unfold bind, lift, roster_setitem.
  destruct (truthy (platform_id (VDict d))).
  - destruct (hash_key (platform_id (VDict d))); [|done].
    by destruct (for_author_in items _ _).
  - by destruct (for_author_in items _ _).
Qed.

(** Over entries it can process, the loop emits nothing, adds each entry in
    turn and returns the platform ids it appended. *)
Lemma for_author_in_entries items bsky_dids st :
  Forall is_entry items ->
  for_author_in items bsky_dids st =
    Run [] (State (foldl add_entry (SUBSCRIBED_AUTHORS_DATA st) items)
                  (requests_issued st))
        (Ok (bsky_dids ++ subscription_keys items)).
Proof.
  intros Hall. revert bsky_dids st.
  induction Hall as [|author items [[d ->] Hkey] _ IH]; intros bsky_dids st.
  - simpl. unfold ret, subscription_keys. simpl. rewrite app_nil_r.
    by destruct st.
  - rewrite subscription_keys_cons, for_author_in_object. simpl foldl.
    unfold add_entry at 2, roster_entry.
    destruct (truthy (platform_id (VDict d))) eqn:Ht.
    + destruct (Hkey eq_refl) as [key ->].
      rewrite IH. simpl. by rewrite <- app_assoc.
    + by rewrite IH.
Qed.

(** Over any items, the loop emits nothing and issues no request; every
    key it leaves in the roster was there before or is the platform id of
    an item; it raises nothing but [AttributeError] and [TypeError]. *)
Lemma for_author_in_any items bsky_dids st :
  events (for_author_in items bsky_dids st) = []
  /\ requests_issued (state_after (for_author_in items bsky_dids st)) =
       requests_issued st
  /\ (forall key,
        is_Some (SUBSCRIBED_AUTHORS_DATA
                   (state_after (for_author_in items bsky_dids st)) !! key) ->
        is_Some (SUBSCRIBED_AUTHORS_DATA st !! key)
        \/ exists author, author ∈ items
                          /\ truthy (platform_id author) = true
                          /\ hash_key (platform_id author) = Ok key)
  /\ (forall e, returned (for_author_in items bsky_dids st) = Raise e ->
        e = AttributeError \/ e = TypeError).
Proof.
  revert bsky_dids st.
  induction items as [|author items IH]; intros bsky_dids st.
  - simpl. split_and!; try done. auto.
  - destruct author as [| | | | | |d];
      try (simpl; split_and!; [done|done|auto|by intros ? [= <-]; auto]).
    rewrite for_author_in_object.
    destruct (truthy (platform_id (VDict d))) eqn:Ht.
    + destruct (hash_key (platform_id (VDict d))) as [key|e] eqn:Hkey.
      2:{ apply hash_key_raises in Hkey as ->. simpl.
          split_and!; [done|done|auto|by intros ? [= <-]; auto]. }
      match goal with
      | |- context [for_author_in items ?acc ?st'] =>
          destruct (IH acc st') as (Hev & Hn & Hkeys & Hexc)
      end.
      split_and!; [done|done| |done].
      intros k Hk. destruct (Hkeys k Hk) as [Hin|(a & Ha & Hta & Hka)].
      * destruct (decide (key = k)) as [<-|Hne].
        -- right. exists (VDict d). split_and!; [apply list_elem_of_here|done|done].
        -- left. simpl in Hin. by rewrite lookup_insert_ne in Hin.
      * right. exists a. split_and!; [by apply list_elem_of_further|done|done].
    + destruct (IH bsky_dids st) as (Hev & Hn & Hkeys & Hexc).
      split_and!; [done|done| |done].
      intros k Hk. destruct (Hkeys k Hk) as [Hin|(a & Ha & Hta & Hka)].
      * by left.
      * right. exists a. split_and!; [by apply list_elem_of_further|done|done].
Qed.

Abbreviation prefix := (fetch_prefix API_BASE_URL ADMIN_API_KEY).

(** A load whose request, status check or decoding raises. *)
Lemma fetch_raises e st :
  fetched authors_api = Raise e ->
  fetch_subscribed_authors st =
    match e with
    | RequestError =>
        Run (prefix ++ [Log ERROR (ErrorFetchingAuthors e)]) st (Ok [])
    | JSONDecodeError =>
        Run (prefix ++ [Log ERROR FailedToDecodeJsonResponse]) st (Ok [])
    | NonException => Run prefix st (Raise e)
    | _ =>
        Run (prefix ++ [Log ERROR (UnexpectedFetchError e)]) st (Ok [])
    end.
Proof.
  unfold fetched, fetch_subscribed_authors, try_except, bind, client_get, lift,
    log, emit, raise, ret, fetch_prefix.
  intros H.
  destruct authors_api as [e'|resp]; simpl in *.
  - simplify_eq. by destruct e.
  - destruct (raise_for_status resp) as [[]|e'] eqn:Hs; simpl.
    + rewrite H. simpl. by destruct e.
    + simplify_eq. by destruct e.
Qed.

(** A load whose decoded answer is empty. *)
Lemma fetch_empty authors st :
  fetched authors_api = Ok authors ->
  truthy authors = false ->
  fetch_subscribed_authors st =
    Run (prefix ++ [Log WARNING ApiReturnedNoAuthors]) st (Ok []).
Proof.
  unfold fetched, fetch_subscribed_authors, try_except, bind, client_get, lift,
    log, emit, raise, ret, fetch_prefix.
  intros H Hf.
  destruct authors_api as [e'|resp]; simpl in *; [done|].
  destruct (raise_for_status resp) as [[]|e'] eqn:Hs; simpl; [|done].
  rewrite H. simpl. rewrite Hf. simpl. done.
Qed.

(** A load that reaches the loop: the roster is cleared first. *)
Lemma fetch_loads authors st :
  fetched authors_api = Ok authors ->
  truthy authors = true ->
  fetch_subscribed_authors st =
    match iterate authors with
    | Raise e =>
        Run (prefix ++ [Log ERROR (UnexpectedFetchError e)])
            (State ∅ (requests_issued st)) (Ok [])
    | Ok items =>
        let loop := for_author_in items [] (State ∅ (requests_issued st)) in
        match returned loop with
        | Ok bsky_dids =>
            Run (prefix ++ [Log INFO (FetchedAuthors (length bsky_dids))])
                (state_after loop) (Ok bsky_dids)
        | Raise e =>
            Run (prefix ++ [Log ERROR (UnexpectedFetchError e)])
                (state_after loop) (Ok [])
        end
    end.
Proof.
  unfold fetched, fetch_subscribed_authors, try_except, bind, client_get, lift,
    log, emit, raise, ret, fetch_prefix, roster_clear.
  intros H Hf.
  destruct authors_api as [e'|resp]; simpl in *; [done|].
  destruct (raise_for_status resp) as [[]|e'] eqn:Hs; simpl; [|done].
  rewrite H. simpl. rewrite Hf. simpl.
  destruct (iterate authors) as [items|e] eqn:Hit; simpl.
  - destruct (for_author_in_any items [] (State ∅ (requests_issued st)))
      as (Hev & _ & _ & Hexc).
    destruct (for_author_in items [] (State ∅ (requests_issued st)))
      as [evs st' [dids|e]]; simpl in *; subst evs; [done|].
    by destruct (Hexc e eq_refl) as [-> | ->].
  - destruct authors; simpl in *; try discriminate; by simplify_eq.
Qed.
(** Entries the loop can process up to one it cannot: the loop stops there,
    with the entries before it added. *)
Lemma for_author_in_stops before bad after bsky_dids st :
  Forall is_entry before ->
  ~ is_entry bad ->
  exists e,
    for_author_in (before ++ bad :: after) bsky_dids st =
      Run [] (State (foldl add_entry (SUBSCRIBED_AUTHORS_DATA st) before)
                    (requests_issued st))
          (Raise e)
    /\ (e = AttributeError \/ e = TypeError).
Proof.
  intros Hall Hbad. revert bsky_dids st.
  induction Hall as [|author items [[d ->] Hkey] _ IH]; intros bsky_dids st.
  - simpl app. simpl foldl.
    destruct bad as [| | | | | |d];
      try (exists AttributeError; split; [by destruct st|auto]).
    rewrite for_author_in_object.
    destruct (truthy (platform_id (VDict d))) eqn:Ht.
    + destruct (hash_key (platform_id (VDict d))) as [key|e] eqn:Hk.
      * destruct Hbad. split; eauto.
      * apply hash_key_raises in Hk as ->. exists TypeError.
        split; [by destruct st|auto].
    + destruct Hbad. split; [eauto|]. congruence.
  - simpl app. rewrite for_author_in_object. simpl foldl.
    unfold add_entry at 2, roster_entry.
    destruct (truthy (platform_id (VDict d))) eqn:Ht.
    + destruct (Hkey eq_refl) as [key ->].
      apply (IH _ (State _ (requests_issued st))).
    + apply IH.
Qed.






(** The load never issues a workflow request nor opens a connection. *)
Lemma fetch_quiet st :
  forward_calls (events (fetch_subscribed_authors st)) = []
  /\ connections (events (fetch_subscribed_authors st)) = [].
Proof.
  destruct (fetched authors_api) as [authors|e] eqn:Hf.
  - destruct (truthy authors) eqn:Ht.
    + rewrite (fetch_loads _ _ Hf Ht).
      destruct (iterate authors) as [items|e]; [|done].
      cbv zeta. by destruct (returned (for_author_in items [] _)).
    + by rewrite (fetch_empty _ _ Hf Ht).
  - rewrite (fetch_raises _ _ Hf). by destruct e.
Qed.

(** With no did to subscribe to, the client returns at once (lines 71-73). *)
Lemma websocket_client_idle feed st :
  websocket_client [] feed st =
    Run [Log WARNING NoAuthorsToSubscribe] st (Ok Returned).
Proof. reflexivity. Qed.

(** [main] is the load followed by the client on the dids it returned. *)
Lemma main_run feed st subscribed_dids :
  returned (fetch_subscribed_authors st) = Ok subscribed_dids ->
  main feed st =
    Run (Log INFO WorkerStarting
           :: events (fetch_subscribed_authors st)
           ++ events (websocket_client subscribed_dids feed
                        (state_after (fetch_subscribed_authors st))))
        (state_after (websocket_client subscribed_dids feed
                        (state_after (fetch_subscribed_authors st))))
        (returned (websocket_client subscribed_dids feed
                     (state_after (fetch_subscribed_authors st)))).
Proof.
  unfold main, bind, log, emit. simpl.
  destruct (fetch_subscribed_authors st) as [evs st' [dids|e]]; simpl; [|done].
  intros [= ->]. by destruct (websocket_client _ _ _).
Qed.

(** After a load that returned no did, [main] returns without a connection
    or a workflow request. *)
Lemma main_idle feed st :
  returned (fetch_subscribed_authors st) = Ok [] ->
  returned (main feed st) = Ok Returned
  /\ connections (events (main feed st)) = []
  /\ forward_calls (events (main feed st)) = [].
Proof.
  intros Hret. rewrite (main_run _ _ _ Hret), websocket_client_idle.
  destruct (fetch_quiet st) as (Hf & Hc). simpl.
  rewrite connections_app, forward_calls_app, Hf, Hc. done.
Qed.

(** C5. When the load returns an empty list of dids, as it does on an empty
    answer or on a failure, the client returns at line 73 whatever the feed
    would deliver: over the whole of [main] no websocket connection is
    opened and no workflow request is issued. *)
Theorem empty_subscription_opens_no_connection feed st :
  returned (fetch_subscribed_authors st) = Ok [] ->
  websocket_client [] feed (state_after (fetch_subscribed_authors st)) =
    Run [Log WARNING NoAuthorsToSubscribe]
        (state_after (fetch_subscribed_authors st)) (Ok Returned)
  /\ returned (main feed st) = Ok Returned
  /\ connections (events (main feed st)) = []
  /\ forward_calls (events (main feed st)) = [].
Proof.
  intros Hret. split; [apply websocket_client_idle|by apply main_idle].
Qed.

(** C8. When the roster request fails with a transport error, or its answer
    fails to decode, the load logs the error and returns the empty list
    without raising, the roster is as it was, and [main] goes on to the
    client, which returns without opening a connection. *)
Theorem failed_fetch_returns_no_dids feed st e :
  fetched authors_api = Raise e ->
  e = RequestError \/ e = JSONDecodeError ->
  returned (fetch_subscribed_authors st) = Ok []
  /\ state_after (fetch_subscribed_authors st) = st
  /\ (exists msg, errors_logged (events (fetch_subscribed_authors st)) = [msg])
  /\ returned (main feed st) = Ok Returned
  /\ connections (events (main feed st)) = []
  /\ forward_calls (events (main feed st)) = [].
Proof.
  intros Hf He.
  assert (returned (fetch_subscribed_authors st) = Ok []) as Hret.
  { rewrite (fetch_raises _ _ Hf). by destruct He as [-> | ->]. }
  split_and!; try by apply main_idle.
  - done.
  - rewrite (fetch_raises _ _ Hf). by destruct He as [-> | ->].
  - rewrite (fetch_raises _ _ Hf). destruct He as [-> | ->]; simpl; eauto.
Qed.

(** An entry can be processed or it cannot. *)
Lemma is_entry_or_not author : is_entry author \/ ~ is_entry author.
Proof.
  destruct author as [| | | | | |d];
    try (right; intros [[d Hd] _]; discriminate).
  destruct (truthy (platform_id (VDict d))) eqn:Ht.
  - destruct (hash_key (platform_id (VDict d))) as [key|e] eqn:Hk.
    + left. split; eauto.
    + right. intros [_ Hkey]. destruct (Hkey Ht) as [key Hkey']. congruence.
  - left. split; [eauto|]. congruence.
Qed.

(** The items of an answer can all be processed, or there is a first one
    that cannot. *)
Lemma entries_or_first_bad items :
  Forall is_entry items
  \/ exists before bad after,
       items = before ++ bad :: after
       /\ Forall is_entry before /\ ~ is_entry bad.
Proof.
  induction items as [|author items IH]; [by left|].
  destruct (is_entry_or_not author) as [Hent|Hbad].
  - destruct IH as [Hall|(before & bad & after & -> & Hall & Hbad)].
    + left. by constructor.
    + right. exists (author :: before), bad, after.
      split_and!; [done|by constructor|done].
  - right. exists [], author, items. by split_and!.
Qed.

(** A load over items it can all process, and a load that meets an item it
    cannot process. *)
Lemma fetch_iterated authors items st :
  fetched authors_api = Ok authors ->
  truthy authors = true ->
  iterate authors = Ok items ->
  Forall is_entry items ->
  fetch_subscribed_authors st =
    Run (prefix
           ++ [Log INFO (FetchedAuthors (length (subscription_keys items)))])
        (State (decoded_roster items) (requests_issued st))
        (Ok (subscription_keys items)).
Proof.
  intros Hf Ht Hit Hall.
  rewrite (fetch_loads _ _ Hf Ht), Hit. cbv beta iota zeta.
  by rewrite (for_author_in_entries _ _ _ Hall).
Qed.

Lemma fetch_stopped authors before bad after st :
  fetched authors_api = Ok authors ->
  truthy authors = true ->
  iterate authors = Ok (before ++ bad :: after) ->
  Forall is_entry before ->
  ~ is_entry bad ->
  exists e,
    fetch_subscribed_authors st =
      Run (prefix ++ [Log ERROR (UnexpectedFetchError e)])
          (State (decoded_roster before) (requests_issued st))
          (Ok [])
    /\ (e = AttributeError \/ e = TypeError).
Proof.
  intros Hf Ht Hit Hall Hbad.
  rewrite (fetch_loads _ _ Hf Ht), Hit. cbv beta iota zeta.
  destruct (for_author_in_stops before bad after []
              (State ∅ (requests_issued st)) Hall Hbad) as (e & -> & He).
  exists e. destruct He as [-> | ->]; (split; [done|auto]).
Qed.

(** C3, as the code has it. The load works on the roster in place, and
    every case ends in one known run. When the request, the status check
    or the decoding raises an [Exception], the load logs the [ERROR] entry
    of the clause that catches it and returns the empty list with the roster
    as it was (what is outside [Exception] is raised on, the roster as it
    was); when the decoded answer is empty it logs the warning of line 42
    and returns the empty list with the roster as it was. Otherwise the
    roster is cleared first.
    An answer that cannot be iterated leaves it empty: the load logs the
    error and returns the empty list. An answer whose items can all be
    processed leaves exactly the records decoded from it, whatever the
    roster held before, and the load returns their platform ids. An answer
    with an item that cannot be processed stops the load there: it logs the
    error, returns the empty list and leaves the records of the items
    before that one. One of the last two is the case for every list of
    items, and in each case every key present afterwards is the platform id
    of an item of this answer. *)
Theorem load_keeps_or_refills_roster st :
  (forall e,
     fetched authors_api = Raise e ->
     state_after (fetch_subscribed_authors st) = st
     /\ fetch_subscribed_authors st =
          match e with
          | RequestError =>
              Run (prefix ++ [Log ERROR (ErrorFetchingAuthors e)]) st (Ok [])
          | JSONDecodeError =>
              Run (prefix ++ [Log ERROR FailedToDecodeJsonResponse]) st (Ok [])
          | NonException => Run prefix st (Raise e)
          | _ =>
              Run (prefix ++ [Log ERROR (UnexpectedFetchError e)]) st (Ok [])
          end)
  /\ (forall authors,
        fetched authors_api = Ok authors -> truthy authors = false ->
        fetch_subscribed_authors st =
          Run (prefix ++ [Log WARNING ApiReturnedNoAuthors]) st (Ok []))
  /\ (forall authors e,
        fetched authors_api = Ok authors -> truthy authors = true ->
        iterate authors = Raise e ->
        fetch_subscribed_authors st =
          Run (prefix ++ [Log ERROR (UnexpectedFetchError e)])
              (State ∅ (requests_issued st)) (Ok []))
  /\ (forall authors items,
        fetched authors_api = Ok authors -> truthy authors = true ->
        iterate authors = Ok items ->
        Forall is_entry items ->
        fetch_subscribed_authors st =
          Run (prefix
                 ++ [Log INFO
                       (FetchedAuthors (length (subscription_keys items)))])
              (State (decoded_roster items) (requests_issued st))
              (Ok (subscription_keys items)))
  /\ (forall authors before bad after,
        fetched authors_api = Ok authors -> truthy authors = true ->
        iterate authors = Ok (before ++ bad :: after) ->
        Forall is_entry before -> ~ is_entry bad ->
        exists e,
          fetch_subscribed_authors st =
            Run (prefix ++ [Log ERROR (UnexpectedFetchError e)])
                (State (decoded_roster before) (requests_issued st))
                (Ok []))
  /\ (forall items,
        Forall is_entry items
        \/ exists before bad after,
             items = before ++ bad :: after
             /\ Forall is_entry before /\ ~ is_entry bad)
  /\ (forall authors key,
        fetched authors_api = Ok authors -> truthy authors = true ->
        is_Some (SUBSCRIBED_AUTHORS_DATA
                   (state_after (fetch_subscribed_authors st)) !! key) ->
        exists author, author ∈ entries_of authors
                       /\ truthy (platform_id author) = true
                       /\ hash_key (platform_id author) = Ok key).
Proof.
  split_and!.
  - intros e Hf. split; [|by apply fetch_raises].
    rewrite (fetch_raises _ _ Hf). by destruct e.
  - intros authors Hf Ht. by rewrite (fetch_empty _ _ Hf Ht).
  - intros authors e Hf Ht Hit. by rewrite (fetch_loads _ _ Hf Ht), Hit.
  - intros authors items. apply fetch_iterated.
  - intros authors before bad after Hf Ht Hit Hall Hbad.
    destruct (fetch_stopped _ _ _ _ st Hf Ht Hit Hall Hbad) as (e & He & _).
    eauto.
  - apply entries_or_first_bad.
  - intros authors key Hf Ht.
    rewrite (fetch_loads _ _ Hf Ht). unfold entries_of.
    destruct (iterate authors) as [items|e].
    + cbv zeta.
      destruct (for_author_in_any items [] (State ∅ (requests_issued st)))
        as (_ & _ & Hkeys & _).
      intros Hsome.
      assert (is_Some (SUBSCRIBED_AUTHORS_DATA
                (state_after (for_author_in items []
                                (State ∅ (requests_issued st)))) !! key))
        as Hsome' by (by destruct (returned (for_author_in items [] _))).
      destruct (Hkeys _ Hsome') as [Hempty|Hex]; [|done].
      simpl in Hempty. rewrite lookup_empty in Hempty. by destruct Hempty.
    + simpl. rewrite lookup_empty. by intros [].
Qed.

(** *** What escapes a message, a connection and the loop *)

Lemma trigger_workflow_raises author_id post_text st e :
  returned (trigger_workflow author_id post_text st) = Raise e ->
  workflow_api (requests_issued st) (trigger_payload author_id post_text)
    = Fails e.
Proof.
  unfold trigger_workflow, try_except, bind, log, emit, client_post, lift,
    raise_for_status, trigger_payload; simpl.
  intros H.
  repeat (case_match; simpl in *; simplify_eq); done.
Qed.

Lemma on_message_raises message st e :
  returned (on_message message st) = Raise e ->
  is_Exception e = false
  /\ on_message message st = process_message message st.
Proof.
  intros H.
  destruct (returned (process_message message st)) as [[]|e'] eqn:Hr.
  - rewrite on_message_returns in H by done. congruence.
  - destruct (is_Exception e') eqn:He.
    + destruct (on_message_catches _ _ _ Hr He) as (lvl & msg & Hrun).
      rewrite Hrun in H. discriminate.
    + rewrite (on_message_lets_through _ _ _ Hr He) in *.
      split; [congruence|done].
Qed.

(** X2. [on_message] never lets an [Exception] out. What it raises is
    outside [Exception], and either [json.loads] raised it on the message,
    before anything was done, or the message was forwarded, in one request,
    and that very request raised it. *)
Theorem on_message_raises_no_exception message st e :
  returned (on_message message st) = Raise e ->
  is_Exception e = false
  /\ (json_loads message = Raise e
      /\ on_message message st = Run [] st (Raise e)
      \/ exists payload,
           forward_calls (events (on_message message st)) = [payload]
           /\ workflow_api (requests_issued st) payload = Fails e).
Proof.
  intros H. destruct (on_message_raises _ _ _ H) as (He & Heq).
  split; [done|]. rewrite Heq in *.
  destruct (process_message_cases message st)
    as [(_ & _ & _ & Hr)
       |(data & commit & record & did & key & info & author_id & post_text
         & p100 & Hrest)].
  - destruct (Hr e H) as [Hl|Hexc]; [|congruence].
    left. split; [done|]. by apply process_message_undecodable.
  - destruct Hrest as (_ & _ & _ & _ & _ & _ & _ & _ & _ & _ & _ & _ & _ & _ & Hp).
    right. exists (trigger_payload author_id post_text).
    rewrite Hp in *.
    destruct (log_then_trigger author_id post_text
                (NewPost author_id p100) st) as (Hcalls & _).
    split; [exact Hcalls|].
    apply trigger_workflow_raises.
    unfold bind, log, emit in H.
    destruct (trigger_workflow author_id post_text st) as [evs st' [[]|e']];
      simpl in *; congruence.
Qed.

Lemma on_message_keeps_roster message st :
  SUBSCRIBED_AUTHORS_DATA (state_after (on_message message st)) =
    SUBSCRIBED_AUTHORS_DATA st.
Proof.
  destruct (on_message_effects message st) as (_ & _ & _ & ->).
  apply process_message_keeps_roster.
Qed.

(** A connection ends the way its stream ends, unless something outside
    [Exception] interrupts a message; the roster is only read. *)
Lemma listen_summary messages ending st :
  SUBSCRIBED_AUTHORS_DATA (state_after (listen messages ending st)) =
    SUBSCRIBED_AUTHORS_DATA st
  /\ (returned (listen messages ending st) = Ok tt /\ ending = Exhausted
      \/ (exists e, returned (listen messages ending st) = Raise e
                    /\ ending = Broken e)
      \/ (exists e, returned (listen messages ending st) = Raise e
                    /\ is_Exception e = false)).
Proof.
  revert st. induction messages as [|message rest IH]; intros st.
  - destruct ending; simpl; split; eauto.
  - simpl. unfold bind.
    pose proof (on_message_keeps_roster message st) as Hk.
    pose proof (on_message_raises message st) as Hr.
    destruct (on_message message st) as [evs st' [[]|e]]; simpl in *.
    + destruct (IH st') as (Hk' & Hcases).
      destruct (listen rest ending st') as [evs2 st2 r2]; simpl in *.
      split; [congruence|done].
    + split; [done|]. right. right. exists e.
      split; [done|]. by destruct (Hr e eq_refl).
Qed.

Lemma connect_and_listen_summary subscribed_dids s st :
  SUBSCRIBED_AUTHORS_DATA
    (state_after (connect_and_listen subscribed_dids s st)) =
    SUBSCRIBED_AUTHORS_DATA st.
Proof.
  unfold connect_and_listen, bind, emit, log.
  destruct s as [e|messages ending]; simpl; [done|].
  destruct (listen_summary messages ending st) as (Hk & _).
  by destruct (listen messages ending st) as [evs st' r].
Qed.

Lemma loop_body_lets_through subscribed_dids s st e :
  returned (connect_and_listen subscribed_dids s st) = Raise e ->
  is_Exception e = false ->
  loop_body subscribed_dids s st = connect_and_listen subscribed_dids s st.
Proof.
  unfold loop_body, try_except, bind, sleep, log, emit.
  destruct (connect_and_listen subscribed_dids s st) as [evs st' [[]|e']];
    simpl; intros H He; simplify_eq.
  by destruct e.
Qed.

(** One pass of [while True]: it opens one connection and then sleeps 5 or
    15, or it is left by something outside [Exception], without a sleep. *)
Lemma loop_body_summary subscribed_dids s st :
  SUBSCRIBED_AUTHORS_DATA (state_after (loop_body subscribed_dids s st)) =
    SUBSCRIBED_AUTHORS_DATA st
  /\ connections (events (loop_body subscribed_dids s st)) = [subscribed_dids]
  /\ (returned (loop_body subscribed_dids s st) = Ok tt
      /\ (total_sleep (events (loop_body subscribed_dids s st)) = 5
          \/ total_sleep (events (loop_body subscribed_dids s st)) = 15)
      \/ exists e,
           returned (loop_body subscribed_dids s st) = Raise e
           /\ is_Exception e = false
           /\ total_sleep (events (loop_body subscribed_dids s st)) = 0)%Z.
Proof.
  pose proof (connect_and_listen_summary subscribed_dids s st) as Hk.
  destruct (connect_and_listen_effects subscribed_dids s st) as (Hc & Hs).
  destruct (returned (connect_and_listen subscribed_dids s st)) as [[]|e] eqn:Hr.
  - rewrite (loop_body_after_end _ _ _ Hr). simpl.
    rewrite connections_app, total_sleep_app, Hc, Hs. simpl.
    split_and!; [done|done|]. left. auto.
  - destruct (is_Exception e) eqn:He.
    + assert (e = ConnectionClosed \/ e <> ConnectionClosed) as [->|Hne]
        by (destruct e; auto).
      * rewrite (loop_body_after_close _ _ _ Hr). simpl.
        rewrite connections_app, total_sleep_app, Hc, Hs. simpl.
        split_and!; [done|done|]. left. auto.
      * rewrite (loop_body_after_error _ _ _ _ Hr He Hne). simpl.
        rewrite connections_app, total_sleep_app, Hc, Hs. simpl.
        split_and!; [done|done|]. left. auto.
    + rewrite (loop_body_lets_through _ _ _ _ Hr He).
      split_and!; [done|done|]. right. eauto.
Qed.

Lemma websocket_client_started subscribed_dids feed st :
  subscribed_dids <> [] ->
  websocket_client subscribed_dids feed st = while_true subscribed_dids feed st.
Proof. intros Hne. unfold websocket_client. by destruct subscribed_dids. Qed.

Lemma while_true_next subscribed_dids s feed st :
  returned (loop_body subscribed_dids s st) = Ok tt ->
  while_true subscribed_dids (s :: feed) st =
    Run (events (loop_body subscribed_dids s st)
           ++ events (while_true subscribed_dids feed
                        (state_after (loop_body subscribed_dids s st))))
        (state_after (while_true subscribed_dids feed
                        (state_after (loop_body subscribed_dids s st))))
        (returned (while_true subscribed_dids feed
                     (state_after (loop_body subscribed_dids s st)))).
Proof.
  simpl. unfold bind.
  destruct (loop_body subscribed_dids s st) as [evs st' [[]|e]]; simpl; [|done].
  intros _. by destruct (while_true subscribed_dids feed st').
Qed.

Lemma while_true_left subscribed_dids s feed st e :
  returned (loop_body subscribed_dids s st) = Raise e ->
  while_true subscribed_dids (s :: feed) st =
    Run (events (loop_body subscribed_dids s st))
        (state_after (loop_body subscribed_dids s st)) (Raise e).
Proof.
  simpl. unfold bind.
  destruct (loop_body subscribed_dids s st) as [evs st' [[]|e']]; simpl; [done|].
  by intros [= ->].
Qed.

(** Every pass through [connect_and_listen] starts by connecting. *)
Lemma connect_and_listen_opens subscribed_dids s st :
  exists evs,
    events (connect_and_listen subscribed_dids s st) =
      WsConnect WEBSOCKET_BASE_URL subscribed_dids :: evs
    /\ connections evs = [] /\ total_sleep evs = 0%Z.
Proof.
  unfold connect_and_listen, bind, emit, log.
  destruct s as [e|messages ending]; simpl; [by exists []|].
  destruct (listen_quiet messages ending st) as (Hc & Hs).
  destruct (listen messages ending st) as [evs st' r]; simpl in *.
  by exists (Log INFO WorkerConnected :: evs).
Qed.

Lemma loop_body_opens subscribed_dids s st :
  exists evs,
    events (loop_body subscribed_dids s st) =
      WsConnect WEBSOCKET_BASE_URL subscribed_dids :: evs.
Proof.
  destruct (connect_and_listen_opens subscribed_dids s st) as (evs & He & _).
  destruct (returned (connect_and_listen subscribed_dids s st)) as [[]|e] eqn:Hr.
  - rewrite (loop_body_after_end _ _ _ Hr). simpl. rewrite He. by eexists.
  - destruct (is_Exception e) eqn:Hexc.
    + assert (e = ConnectionClosed \/ e <> ConnectionClosed) as [->|Hne]
        by (destruct e; auto).
      * rewrite (loop_body_after_close _ _ _ Hr). simpl. rewrite He.
        by eexists.
      * rewrite (loop_body_after_error _ _ _ _ Hr Hexc Hne). simpl.
        rewrite He. by eexists.
    + rewrite (loop_body_lets_through _ _ _ _ Hr Hexc), He. by eexists.
Qed.

(** A pass of [while True] that comes to its end: the connection, events
    that neither connect nor sleep, and the sleep of 5 or of 10 and 5. *)
Lemma loop_body_paced subscribed_dids s st :
  returned (loop_body subscribed_dids s st) = Ok tt ->
  exists body wait,
    events (loop_body subscribed_dids s st) =
      WsConnect WEBSOCKET_BASE_URL subscribed_dids :: body ++ wait
    /\ connections body = [] /\ total_sleep body = 0%Z
    /\ (wait = [Sleep 5] \/ wait = [Sleep 10; Sleep 5]).
Proof.
  intros Hret.
  destruct (connect_and_listen_opens subscribed_dids s st)
    as (evs & He & Hc & Hs).
  destruct (returned (connect_and_listen subscribed_dids s st)) as [[]|e] eqn:Hr.
  - rewrite (loop_body_after_end _ _ _ Hr). simpl. rewrite He.
    exists evs, [Sleep 5]. split_and!; auto.
  - destruct (is_Exception e) eqn:Hexc.
    + assert (e = ConnectionClosed \/ e <> ConnectionClosed) as [->|Hne]
        by (destruct e; auto).
      * rewrite (loop_body_after_close _ _ _ Hr). simpl. rewrite He.
        exists (evs ++ [Log WARNING ConnectionClosedReconnecting]), [Sleep 5].
        rewrite connections_app, total_sleep_app, Hc, Hs.
        split_and!; auto. simpl. by rewrite <- app_assoc.
      * rewrite (loop_body_after_error _ _ _ _ Hr Hexc Hne). simpl.
        rewrite He.
        exists (evs ++ [Log ERROR (WebsocketClientError e)]),
          [Sleep 10; Sleep 5].
        rewrite connections_app, total_sleep_app, Hc, Hs.
        split_and!; auto. simpl. by rewrite <- app_assoc.
    + rewrite (loop_body_lets_through _ _ _ _ Hr Hexc) in Hret. congruence.
Qed.

(** C4, as the code has it. A session that ends with an [Exception] other
    than [ConnectionClosed] (a refused connection, an error of the
    handshake or of the socket) is followed by the error entry, the sleep
    of 10 and then the sleep of 5 that follows every session: 15 in all, and
    then the client connects again. A session whose connection was closed is
    followed by the sleep of 5 alone, whether [ConnectionClosed] was raised,
    as it is when the connection ends abnormally, or the iteration ended
    without an exception, as it does on a clean close. The first wait is the
    longer one; the sessions themselves sleep nothing. *)
Theorem error_disconnect_waits_longer subscribed_dids s st e s' st' feed :
  subscribed_dids <> [] ->
  returned (connect_and_listen subscribed_dids s st) = Raise e ->
  is_Exception e = true ->
  e <> ConnectionClosed ->
  returned (connect_and_listen subscribed_dids s' st') = Raise ConnectionClosed
  \/ returned (connect_and_listen subscribed_dids s' st') = Ok tt ->
  total_sleep (events (loop_body subscribed_dids s st)) = (10 + 5)%Z
  /\ total_sleep (events (loop_body subscribed_dids s' st')) = 5%Z
  /\ (total_sleep (events (loop_body subscribed_dids s' st'))
       < total_sleep (events (loop_body subscribed_dids s st)))%Z
  /\ returned (loop_body subscribed_dids s st) = Ok tt
  /\ events (websocket_client subscribed_dids (s :: feed) st) =
       events (connect_and_listen subscribed_dids s st)
         ++ [Log ERROR (WebsocketClientError e); Sleep 10; Sleep 5]
         ++ events (websocket_client subscribed_dids feed
                      (state_after (connect_and_listen subscribed_dids s st)))
  /\ (returned (connect_and_listen subscribed_dids s' st')
        = Raise ConnectionClosed ->
      events (websocket_client subscribed_dids (s' :: feed) st') =
        events (connect_and_listen subscribed_dids s' st')
          ++ [Log WARNING ConnectionClosedReconnecting; Sleep 5]
          ++ events (websocket_client subscribed_dids feed
                       (state_after
                          (connect_and_listen subscribed_dids s' st'))))
  /\ (returned (connect_and_listen subscribed_dids s' st') = Ok tt ->
      events (websocket_client subscribed_dids (s' :: feed) st') =
        events (connect_and_listen subscribed_dids s' st')
          ++ [Sleep 5]
          ++ events (websocket_client subscribed_dids feed
                       (state_after
                          (connect_and_listen subscribed_dids s' st'))))
  /\ total_sleep (events (connect_and_listen subscribed_dids s st)) = 0%Z
  /\ total_sleep (events (connect_and_listen subscribed_dids s' st')) = 0%Z
  /\ (forall next rest st2,
        head (events (websocket_client subscribed_dids (next :: rest) st2)) =
          Some (WsConnect WEBSOCKET_BASE_URL subscribed_dids)).
Proof.
  intros Hdids Herr He Hne Hclean.
  destruct (connect_and_listen_effects subscribed_dids s st) as (_ & H0).
  destruct (connect_and_listen_effects subscribed_dids s' st') as (_ & H0').
  pose proof (loop_body_after_error _ _ _ _ Herr He Hne) as Hbody.
  assert (total_sleep (events (loop_body subscribed_dids s st)) = 15%Z) as H15.
  { rewrite Hbody. simpl. rewrite total_sleep_app, H0. done. }
  assert (total_sleep (events (loop_body subscribed_dids s' st')) = 5%Z) as H5.
  { destruct Hclean as [Hclose|Hend].
    - rewrite (loop_body_after_close _ _ _ Hclose). simpl.
      rewrite total_sleep_app, H0'. done.
    - rewrite (loop_body_after_end _ _ _ Hend). simpl.
      rewrite total_sleep_app, H0'. done. }
  assert (forall s0 st0 evs,
            loop_body subscribed_dids s0 st0 =
              Run (events (connect_and_listen subscribed_dids s0 st0) ++ evs)
                  (state_after (connect_and_listen subscribed_dids s0 st0))
                  (Ok tt) ->
            events (websocket_client subscribed_dids (s0 :: feed) st0) =
              events (connect_and_listen subscribed_dids s0 st0)
                ++ evs
                ++ events (websocket_client subscribed_dids feed
                             (state_after
                                (connect_and_listen subscribed_dids s0 st0))))
    as Hround.
  { intros s0 st0 evs Hrun.
    rewrite !websocket_client_started by done.
    rewrite while_true_next by (by rewrite Hrun).
    rewrite Hrun. simpl. by rewrite <- app_assoc. }
  split_and!; [done | done | lia | by rewrite Hbody | by apply Hround
              | | | done | done | ].
  - intros Hclose. apply Hround. by apply loop_body_after_close.
  - intros Hend. apply Hround. by apply loop_body_after_end.
  - intros next rest st2. rewrite websocket_client_started by done.
    destruct (loop_body_opens subscribed_dids next st2) as (evs & Hopen).
    simpl. unfold bind.
    destruct (loop_body subscribed_dids next st2) as [evs0 st0 [[]|e0]];
      simpl in *; subst evs0; [|done].
    by destruct (while_true subscribed_dids rest st0).
Qed.

(** The loop over a feed: it opens one connection per session it reaches,
    always for the same dids, sleeps 5 or 15 after each, and only reads the
    roster; it is left only by something outside [Exception]. *)
Lemma while_true_summary subscribed_dids feed st :
  SUBSCRIBED_AUTHORS_DATA (state_after (while_true subscribed_dids feed st)) =
    SUBSCRIBED_AUTHORS_DATA st
  /\ exists k,
       (k <= length feed)%nat
       /\ connections (events (while_true subscribed_dids feed st)) =
            replicate k subscribed_dids
       /\ ((returned (while_true subscribed_dids feed st) = Ok Looping
            /\ k = length feed
            /\ 5 * Z.of_nat k
                 <= total_sleep (events (while_true subscribed_dids feed st))
                 <= 15 * Z.of_nat k)
           \/ (exists e,
                 returned (while_true subscribed_dids feed st) = Raise e
                 /\ is_Exception e = false))%Z.
Proof.
  revert st. induction feed as [|s feed IH]; intros st.
  - simpl. split; [done|]. exists 0%nat. split_and!; [done|done|].
    left. split_and!; [done|done|done|done].
  - destruct (loop_body_summary subscribed_dids s st) as (Hk & Hc & Hcases).
    destruct Hcases as [(Hr & Hs)|(e & Hr & He & Hs)].
    + rewrite (while_true_next _ _ _ _ Hr). simpl.
      destruct (IH (state_after (loop_body subscribed_dids s st)))
        as (Hk' & k & Hle & Hc' & Hcases').
      split; [congruence|]. exists (S k).
      rewrite connections_app, total_sleep_app, Hc, Hc'.
      split_and!; [lia|done|].
      destruct Hcases' as [(Hr' & -> & Hs')|(e & Hr' & He)].
      * left. split_and!; [done|done|lia|lia].
      * right. eauto.
    + rewrite (while_true_left _ _ _ _ _ Hr). simpl.
      split; [done|]. exists 1%nat. rewrite Hc.
      split_and!; [lia|done|]. right. eauto.
Qed.

Lemma client_reads_roster_only subscribed_dids feed st :
  SUBSCRIBED_AUTHORS_DATA
    (state_after (websocket_client subscribed_dids feed st)) =
    SUBSCRIBED_AUTHORS_DATA st.
Proof.
  destruct subscribed_dids as [|did dids]; [done|].
  rewrite websocket_client_started by done.
  apply while_true_summary.
Qed.

(** X1. The websocket client only reads the roster: whatever the feed
    delivers and the workflow API answers, and however the client ends,
    [SUBSCRIBED_AUTHORS_DATA] is afterwards what it was when the client
    started, and so are the records the messages are resolved against. *)
Theorem websocket_client_keeps_roster subscribed_dids feed st did dflt :
  SUBSCRIBED_AUTHORS_DATA
    (state_after (websocket_client subscribed_dids feed st)) =
    SUBSCRIBED_AUTHORS_DATA st
  /\ returned (roster_get did dflt
                 (state_after (websocket_client subscribed_dids feed st))) =
     returned (roster_get did dflt st).
Proof.
  pose proof (client_reads_roster_only subscribed_dids feed st) as H.
  split; [done|]. unfold roster_get.
  destruct (hash_key did); [|done]. simpl. by rewrite H.
Qed.

(** X3. Once it has a did to subscribe to, the client does not return: it
    is still in [while True] when the feed is used up, unless something
    outside [Exception] (a cancellation, an interrupt) was raised. *)
Theorem websocket_client_does_not_return subscribed_dids feed st :
  subscribed_dids <> [] ->
  returned (websocket_client subscribed_dids feed st) = Ok Looping
  \/ exists e,
       returned (websocket_client subscribed_dids feed st) = Raise e
       /\ is_Exception e = false.
Proof.
  intros Hne. rewrite websocket_client_started by done.
  destruct (while_true_summary subscribed_dids feed st)
    as (_ & k & _ & _ & [(Hr & _)|Hex]); [by left|by right].
Qed.

(** X4. The client reconnects without limit and never changes the
    subscription: when nothing outside [Exception] is raised, it opens one
    connection for every session of the feed, however they end, each for
    the dids it was started with. *)
Theorem one_connection_per_session subscribed_dids feed st :
  subscribed_dids <> [] ->
  returned (websocket_client subscribed_dids feed st) = Ok Looping ->
  connections (events (websocket_client subscribed_dids feed st)) =
    replicate (length feed) subscribed_dids.
Proof.
  intros Hne. rewrite websocket_client_started by done. intros Hloop.
  destruct (while_true_summary subscribed_dids feed st)
    as (_ & k & _ & Hc & [(_ & -> & _)|(e & Hr & _)]); [done|congruence].
Qed.

Lemma while_true_paced subscribed_dids feed st :
  returned (while_true subscribed_dids feed st) = Ok Looping ->
  paced subscribed_dids (events (while_true subscribed_dids feed st)).
Proof.
  revert st. induction feed as [|s feed IH]; intros st.
  - intros _. constructor.
  - destruct (returned (loop_body subscribed_dids s st)) as [[]|e] eqn:Hr.
    + rewrite (while_true_next _ _ _ _ Hr). simpl. intros Hloop.
      destruct (loop_body_paced _ _ _ Hr)
        as (body & wait & -> & Hc & Hs & Hwait).
      simpl. rewrite <- app_assoc.
      apply paced_session; [done|done|done|]. by apply IH.
    + rewrite (while_true_left _ _ _ _ _ Hr). simpl. discriminate.
Qed.

(** X5. Every reconnect is preceded by a sleep. The events of a client that
    is still looping go session by session: the connection, then events that
    neither connect nor sleep, then the sleep of 5 or the sleeps of 10 and 5,
    and only then the next connection; over a feed of [n] sessions the
    client sleeps at least [5 n] and at most [15 n]. *)
Theorem reconnects_are_paced subscribed_dids feed st :
  subscribed_dids <> [] ->
  returned (websocket_client subscribed_dids feed st) = Ok Looping ->
  paced subscribed_dids (events (websocket_client subscribed_dids feed st))
  /\ (5 * Z.of_nat (length feed)
        <= total_sleep (events (websocket_client subscribed_dids feed st))
        <= 15 * Z.of_nat (length feed))%Z.
Proof.
  intros Hne. rewrite websocket_client_started by done. intros Hloop.
  split; [by apply while_true_paced|].
  destruct (while_true_summary subscribed_dids feed st)
    as (_ & k & _ & _ & [(_ & -> & Hs)|(e & Hr & _)]); [done|congruence].
Qed.

(** X6. Something outside [Exception] raised during a session leaves the
    client at once: it is not logged, nothing is slept, and the sessions
    that would follow are never connected to. *)
Theorem interruption_leaves_client subscribed_dids s feed st e :
  subscribed_dids <> [] ->
  returned (connect_and_listen subscribed_dids s st) = Raise e ->
  is_Exception e = false ->
  events (websocket_client subscribed_dids (s :: feed) st) =
    events (connect_and_listen subscribed_dids s st)
  /\ returned (websocket_client subscribed_dids (s :: feed) st) = Raise e
  /\ connections (events (websocket_client subscribed_dids (s :: feed) st)) =
       [subscribed_dids]
  /\ total_sleep (events (websocket_client subscribed_dids (s :: feed) st)) = 0%Z.
Proof.
  intros Hne Hr He. rewrite websocket_client_started by done.
  assert (returned (loop_body subscribed_dids s st) = Raise e) as Hl
    by (by rewrite (loop_body_lets_through _ _ _ _ Hr He)).
  rewrite (while_true_left _ _ _ _ _ Hl). simpl.
  rewrite (loop_body_lets_through _ _ _ _ Hr He).
  destruct (connect_and_listen_effects subscribed_dids s st) as (Hc & Hs).
  done.
Qed.

(** *** Messages that pass the filters *)

(** A message that passes the filters of lines 86-94 gets to the text of
    its record: the text is sliced for the log entry, and forwarded when it
    and the author id are truthy. *)
Lemma process_message_reaches_text
  message data commit record key author_info author_id post_text st :
  json_loads message = Ok data ->
  field data "kind" = Some (VStr "commit") ->
  field data "commit" = Some commit ->
  field commit "operation" = Some (VStr "create") ->
  hash_key (default VNone (field data "did")) = Ok key ->
  author_info = default (VDict ∅) (SUBSCRIBED_AUTHORS_DATA st !! key) ->
  get author_info "id" = Ok author_id ->
  field commit "collection" = Some (VStr "app.bsky.feed.post") ->
  field commit "record" = Some record ->
  field record "text" = Some post_text ->
  process_message message st =
    (post_text_100 <- lift (slice_to 100 post_text) ;;
     log INFO (NewPost author_id post_text_100) ;;
     if truthy author_id && truthy post_text
     then trigger_workflow author_id post_text
     else ret tt) st.
Proof.
  intros Hload Hkind Hcommit Hop Hkey -> Hid Hcoll Hrec Htext.
  destruct data as [| | | | | |d]; try discriminate.
  destruct commit as [| | | | | |c]; try discriminate.
  destruct record as [| | | | | |rc]; try discriminate.
  simpl in *.
  unfold process_message, bind, lift, get, get_default, roster_get, log, emit,
    ret.
  rewrite Hload; simpl. rewrite Hkind; simpl.
  rewrite Hcommit; simpl. rewrite Hop; simpl.
  rewrite Hkey; simpl.
  unfold get, get_default in Hid.
  destruct (default (VDict ∅) (SUBSCRIBED_AUTHORS_DATA st !! key))
    as [| | | | | |i]; try discriminate.
  injection Hid as <-. simpl.
  rewrite Hcoll; simpl. rewrite Hrec; simpl. rewrite Htext; simpl.
  destruct (slice_to 100 post_text) as [p|e]; simpl; [|done].
  destruct (truthy (default VNone (i !! "id")) && truthy post_text); [|done].
  by destruct (trigger_workflow _ _ _).
Qed.

(** The message that caused a workflow request passed every filter. *)
Lemma forwarding_message message st payload :
  head (forward_calls (events (on_message message st))) = Some payload ->
  exists logged author_id post_text,
    payload = trigger_payload author_id post_text
    /\ truthy author_id = true
    /\ truthy post_text = true
    /\ process_message message st =
         (log INFO logged ;; trigger_workflow author_id post_text) st.
Proof.
  intros Hcall.
  destruct (on_message_effects message st) as (Hfc & _).
  destruct (process_message_cases message st)
    as [(Hc & _)
       |(data & commit & record & did & key & info & author_id & post_text
         & p100 & Hrest)].
  - rewrite Hfc, Hc in Hcall. discriminate.
  - destruct Hrest
      as (_ & _ & _ & _ & _ & _ & _ & _ & Ha & _ & _ & _ & Ht & _ & Heq).
    destruct (log_then_trigger author_id post_text (NewPost author_id p100) st)
      as (Hp & _).
    rewrite <- Heq in Hp. rewrite Hfc, Hp in Hcall. simpl in Hcall.
    injection Hcall as <-. eauto 10.
Qed.

(** X7. A record whose text cannot be sliced (a number, a boolean, an
    object) is never forwarded, even from a rostered author: the log entry
    of line 97 raises [TypeError] before the request is built, and the
    message is logged as failed. *)
Theorem unsliceable_text_is_dropped
  message data commit record key author_info author_id post_text st e :
  json_loads message = Ok data ->
  field data "kind" = Some (VStr "commit") ->
  field data "commit" = Some commit ->
  field commit "operation" = Some (VStr "create") ->
  hash_key (default VNone (field data "did")) = Ok key ->
  author_info = default (VDict ∅) (SUBSCRIBED_AUTHORS_DATA st !! key) ->
  get author_info "id" = Ok author_id ->
  field commit "collection" = Some (VStr "app.bsky.feed.post") ->
  field commit "record" = Some record ->
  field record "text" = Some post_text ->
  slice_to 100 post_text = Raise e ->
  on_message message st =
    Run [Log ERROR (MessageProcessingError TypeError)] st (Ok tt).
Proof.
  intros Hload Hkind Hcommit Hop Hkey Hinfo Hid Hcoll Hrec Htext Hslice.
  pose proof (process_message_reaches_text _ _ _ _ _ _ _ _ st Hload Hkind
                Hcommit Hop Hkey Hinfo Hid Hcoll Hrec Htext) as Heq.
  unfold on_message, try_except. rewrite Heq.
  unfold bind, lift. rewrite Hslice.
  apply slice_to_raises in Hslice as ->. done.
Qed.



(** *** The workflow request, by its answer *)

Lemma trigger_workflow_accepted author_id post_text st resp :
  workflow_api (requests_issued st) (trigger_payload author_id post_text)
    = Replies resp ->
  raise_for_status resp = Ok tt ->
  trigger_workflow author_id post_text st =
    Run [Log INFO
           (SendingPost (API_BASE_URL ++ "process-tweet/trigger-workflow")%string);
         HttpPost (API_BASE_URL ++ "process-tweet/trigger-workflow")%string
                  (trigger_payload author_id post_text)
                  (authorization ADMIN_API_KEY) 15;
         Log INFO (TriggeredWorkflow (status_code resp))]
        (State (SUBSCRIBED_AUTHORS_DATA st) (S (requests_issued st)))
        (Ok tt).
Proof.
  unfold trigger_workflow, try_except, bind, log, emit, client_post, lift,
    trigger_payload; simpl.
  intros -> ->. done.
Qed.

Lemma trigger_workflow_escapes author_id post_text st e :
  workflow_api (requests_issued st) (trigger_payload author_id post_text)
    = Fails e ->
  forward_failure (Fails e) = None ->
  trigger_workflow author_id post_text st =
    Run [Log INFO
           (SendingPost (API_BASE_URL ++ "process-tweet/trigger-workflow")%string);
         HttpPost (API_BASE_URL ++ "process-tweet/trigger-workflow")%string
                  (trigger_payload author_id post_text)
                  (authorization ADMIN_API_KEY) 15]
        (State (SUBSCRIBED_AUTHORS_DATA st) (S (requests_issued st)))
        (Raise e).
Proof.
  unfold trigger_workflow, try_except, bind, log, emit, client_post, lift,
    trigger_payload; simpl.
  intros -> Hno. by destruct e.
Qed.

(** X9. When the workflow API answers a request with a status that
    [raise_for_status] accepts, the message ends with the [INFO] entry of
    line 114 carrying that status: one request, nothing logged at [ERROR],
    and the body of the answer is not looked at. *)
Theorem accepted_forward_logs_status message st payload resp :
  head (forward_calls (events (on_message message st))) = Some payload ->
  workflow_api (requests_issued st) payload = Replies resp ->
  raise_for_status resp = Ok tt ->
  exists logged,
    on_message message st =
      Run [Log INFO logged;
           Log INFO (SendingPost
             (API_BASE_URL ++ "process-tweet/trigger-workflow")%string);
           HttpPost (API_BASE_URL ++ "process-tweet/trigger-workflow")%string
                    payload (authorization ADMIN_API_KEY) 15;
           Log INFO (TriggeredWorkflow (status_code resp))]
          (State (SUBSCRIBED_AUTHORS_DATA st) (S (requests_issued st)))
          (Ok tt).
Proof.
  intros Hcall Hreply Hstatus.
  destruct (forwarding_message _ _ _ Hcall)
    as (logged & author_id & post_text & -> & _ & _ & Heq).
  exists logged.
  rewrite on_message_returns; rewrite Heq; unfold bind, log, emit;
    rewrite (trigger_workflow_accepted _ _ _ _ Hreply Hstatus); done.
Qed.

(** X10. An exception of the workflow request that the clauses of lines
    115-118 do not name (neither a status error nor a transport error) is
    still kept inside the message: the clauses of lines 120-123 log it, the
    request is not issued again and [on_message] returns. *)
Theorem unnamed_forward_exception_is_logged message st payload e :
  head (forward_calls (events (on_message message st))) = Some payload ->
  workflow_api (requests_issued st) payload = Fails e ->
  forward_failure (Fails e) = None ->
  is_Exception e = true ->
  exists logged lvl msg,
    on_message message st =
      Run [Log INFO logged;
           Log INFO (SendingPost
             (API_BASE_URL ++ "process-tweet/trigger-workflow")%string);
           HttpPost (API_BASE_URL ++ "process-tweet/trigger-workflow")%string
                    payload (authorization ADMIN_API_KEY) 15;
           Log lvl msg]
          (State (SUBSCRIBED_AUTHORS_DATA st) (S (requests_issued st)))
          (Ok tt)
    /\ lvl <> INFO.
Proof.
  intros Hcall Hreply Hno He.
  destruct (forwarding_message _ _ _ Hcall)
    as (logged & author_id & post_text & -> & _ & _ & Heq).
  exists logged.
  unfold on_message, try_except. rewrite Heq. unfold bind, log, emit.
  rewrite (trigger_workflow_escapes _ _ _ _ Hreply Hno). simpl.
  destruct e; simpl in *; try discriminate; eauto.
Qed.

(** *** More on the load *)

(** X11. An error status on the roster request (401 for a wrong key, 500)
    is not told apart from any other failure: the load logs it as an
    unexpected error and returns the empty list, the answer is not decoded,
    the roster is as it was, and [main] ends without a connection. *)
Theorem error_status_idles_worker feed st resp e :
  authors_api = Replies resp ->
  raise_for_status resp = Raise e ->
  fetch_subscribed_authors st =
    Run (prefix ++ [Log ERROR (UnexpectedFetchError
                      (HTTPStatusError (status_code resp) (text resp)))])
        st (Ok [])
  /\ returned (main feed st) = Ok Returned
  /\ connections (events (main feed st)) = [].
Proof.
  intros Hreply Hstatus.
  assert (e = HTTPStatusError (status_code resp) (text resp)) as ->.
  { unfold raise_for_status in Hstatus.
    destruct (_ && _); congruence. }
  assert (fetched authors_api
            = Raise (HTTPStatusError (status_code resp) (text resp))) as Hf.
  { unfold fetched. by rewrite Hreply, Hstatus. }
  pose proof (fetch_raises _ st Hf) as Hrun. simpl in Hrun.
  split; [done|].
  destruct (main_idle feed st) as (Hr & Hc & _); [by rewrite Hrun|done].
Qed.

(** X12. The load returns a list in every case but one: when the request,
    the status check or the decoding raises something outside [Exception].
    Then nothing is logged after the request, the roster is as it was, and
    [main] raises the same without starting the client. *)
Theorem load_raises_only_interruptions feed st e :
  returned (fetch_subscribed_authors st) = Raise e ->
  is_Exception e = false
  /\ fetched authors_api = Raise e
  /\ fetch_subscribed_authors st = Run prefix st (Raise e)
  /\ returned (main feed st) = Raise e
  /\ connections (events (main feed st)) = [].
Proof.
  intros Hr.
  assert (fetched authors_api = Raise e /\ is_Exception e = false) as [Hf He].
  { destruct (fetched authors_api) as [authors|e'] eqn:Hf.
    - destruct (truthy authors) eqn:Ht.
      + rewrite (fetch_loads _ _ Hf Ht) in Hr.
        destruct (iterate authors) as [items|e']; [|discriminate].
        cbv zeta in Hr.
        by destruct (returned (for_author_in items [] _)).
      + rewrite (fetch_empty _ _ Hf Ht) in Hr. discriminate.
    - rewrite (fetch_raises _ _ Hf) in Hr.
      destruct e'; simpl in Hr; try discriminate. by injection Hr as <-. }
  pose proof (fetch_raises _ st Hf) as Hrun.
  assert (fetch_subscribed_authors st = Run prefix st (Raise e)) as Hrun'
    by (destruct e; try discriminate; done).
  split_and!; try done.
  - unfold main, bind, log, emit. simpl. by rewrite Hrun'.
  - unfold main, bind, log, emit. simpl. by rewrite Hrun'.
Qed.

Lemma roster_invariant_insert roster author key :
  roster_invariant roster ->
  truthy (platform_id author) = true ->
  hash_key (platform_id author) = Ok key ->
  roster_invariant (<[key := identity_record author]> roster).
Proof.
  intros Hinv Ht Hk k info Hlook.
  destruct (decide (key = k)) as [<-|Hne].
  - rewrite lookup_insert_eq in Hlook. injection Hlook as <-. eauto.
  - rewrite lookup_insert_ne in Hlook by done. eauto.
Qed.

Lemma roster_invariant_empty : roster_invariant ∅.
Proof. intros key info Hlook. by rewrite lookup_empty in Hlook. Qed.

Lemma for_author_in_invariant items bsky_dids st :
  roster_invariant (SUBSCRIBED_AUTHORS_DATA st) ->
  roster_invariant
    (SUBSCRIBED_AUTHORS_DATA (state_after (for_author_in items bsky_dids st))).
Proof.
  revert bsky_dids st.
  induction items as [|author items IH]; intros bsky_dids st Hinv; [done|].
  destruct author as [| | | | | |d]; try done.
  rewrite for_author_in_object.
  destruct (truthy (platform_id (VDict d))) eqn:Ht; [|by apply IH].
  destruct (hash_key (platform_id (VDict d))) as [key|e] eqn:Hkey; [|done].
  apply IH. simpl. by apply roster_invariant_insert.
Qed.

Lemma fetch_keeps_invariant st :
  roster_invariant (SUBSCRIBED_AUTHORS_DATA st) ->
  roster_invariant
    (SUBSCRIBED_AUTHORS_DATA (state_after (fetch_subscribed_authors st))).
Proof.
  intros Hinv.
  destruct (fetched authors_api) as [authors|e] eqn:Hf.
  - destruct (truthy authors) eqn:Ht.
    + rewrite (fetch_loads _ _ Hf Ht).
      destruct (iterate authors) as [items|e]; [|apply roster_invariant_empty].
      cbv zeta.
      pose proof (for_author_in_invariant items []
                    (State ∅ (requests_issued st)) roster_invariant_empty).
      by destruct (returned (for_author_in items [] _)).
    + by rewrite (fetch_empty _ _ Hf Ht).
  - rewrite (fetch_raises _ _ Hf). by destruct e.
Qed.

(** X13. The worker keeps its roster well formed: if every record is the
    identity record of an entry, stored under the key of its truthy
    platform id, then so it is after [main], whatever the control API, the
    feed and the workflow API do. It holds of the empty roster the module
    starts with. *)
Theorem main_keeps_roster_invariant feed st :
  roster_invariant (SUBSCRIBED_AUTHORS_DATA st) ->
  roster_invariant (SUBSCRIBED_AUTHORS_DATA (state_after (main feed st))).
Proof.
  intros Hinv. apply fetch_keeps_invariant in Hinv.
  destruct (returned (fetch_subscribed_authors st)) as [dids|e] eqn:Hr.
  - rewrite (main_run _ _ _ Hr). simpl.
    by rewrite client_reads_roster_only.
  - unfold main, bind, log, emit. simpl.
    by destruct (fetch_subscribed_authors st) as [evs st' [dids|e']];
      simplify_eq.
Qed.

(** *** Keys and truth values *)

Lemma float_to_int_nonzero s m e z :
  float_to_int (S754_finite s m e) = Some z -> z <> 0%Z.
Proof.
  simpl. destruct (Z.leb 0 e) eqn:He.
  - apply Z.leb_le in He. intros [= <-].
    rewrite Z.shiftl_mul_pow2 by done.
    assert (0 < 2 ^ e)%Z by (apply Z.pow_pos_nonneg; lia).
    destruct s; nia.
  - apply Z.leb_gt in He.
    destruct (Z.eqb (Z.land (Z.pos m) (Z.ones (- e))) 0) eqn:Hl; [|done].
    apply Z.eqb_eq in Hl. intros [= <-].
    rewrite Z.land_ones in Hl by lia.
    rewrite Z.shiftr_div_pow2 by lia.
    assert (0 < 2 ^ (- e))%Z as Hp by (apply Z.pow_pos_nonneg; lia).
    pose proof (Z.div_mod (Z.pos m) (2 ^ (- e))) as Hdm.
    intros Hz.
    assert (Z.pos m `div` 2 ^ (- e) = 0)%Z as Hd by (destruct s; lia).
    rewrite Hd, Hl in Hdm. lia.
Qed.

(** Values that are one dictionary key have one truth value: [0], [0.0] and
    [False] are falsy together. *)
Lemma truthy_of_key v key : hash_key v = Ok key -> truthy v = key_truthy key.
Proof.
  destruct v as [|b|z|f|s| |]; simpl; try (intros [= <-]; done).
  - intros [= <-]. by destruct b.
  - intros [= <-].
    destruct (float_to_int f) as [z|] eqn:Hf.
    + destruct f as [?|?| |s m e]; simpl in Hf; try discriminate.
      * by injection Hf as <-.
      * apply float_to_int_nonzero in Hf. simpl.
        by destruct (Z.eqb_spec z 0).
    + by destruct f.
Qed.

(** X14. A message without a did, or whose did is null, 0, false or the
    empty string, is never forwarded: the roster the worker keeps has no
    record under the key of a falsy value. *)
Theorem falsy_did_is_not_forwarded message data st :
  roster_invariant (SUBSCRIBED_AUTHORS_DATA st) ->
  json_loads message = Ok data ->
  truthy (default VNone (field data "did")) = false ->
  forward_calls (events (on_message message st)) = []
  /\ state_after (on_message message st) = st.
Proof.
  intros Hinv Hload Hfalsy.
  destruct (on_message_effects message st) as (-> & _ & _ & ->).
  destruct (process_message_cases message st)
    as [(Hc & Hs & _)
       |(data' & commit & record & did & key & info & author_id & post_text
         & p100 & Hload' & _ & _ & _ & -> & Hkey & Hinfo & _)]; [done|].
  exfalso. rewrite Hload in Hload'. injection Hload' as <-.
  destruct (Hinv _ _ Hinfo) as (author & _ & Ht & Hk).
  rewrite (truthy_of_key _ _ Hkey) in Hfalsy.
  rewrite (truthy_of_key _ _ Hk) in Ht. congruence.
Qed.

(** A key the loop finds in the roster, or puts there, stays there. *)
Lemma for_author_in_keeps_keys items bsky_dids st key :
  is_Some (SUBSCRIBED_AUTHORS_DATA st !! key) ->
  is_Some (SUBSCRIBED_AUTHORS_DATA
             (state_after (for_author_in items bsky_dids st)) !! key).
Proof.
  revert bsky_dids st.
  induction items as [|author items IH]; intros bsky_dids st Hsome; [done|].
  destruct author as [| | | | | |d]; try done.
  rewrite for_author_in_object.
  destruct (truthy (platform_id (VDict d))) eqn:Ht; [|by apply IH].
  destruct (hash_key (platform_id (VDict d))) as [k|e] eqn:Hkey; [|done].
  apply IH. simpl.
  destruct (decide (k = key)) as [->|Hne].
  - rewrite lookup_insert_eq. eauto.
  - by rewrite lookup_insert_ne.
Qed.

Lemma for_author_in_resolves items bsky_dids st dids :
  returned (for_author_in items bsky_dids st) = Ok dids ->
  forall did, did ∈ dids ->
    did ∈ bsky_dids
    \/ (truthy did = true
        /\ exists key,
             hash_key did = Ok key
             /\ is_Some (SUBSCRIBED_AUTHORS_DATA
                           (state_after (for_author_in items bsky_dids st))
                           !! key)).
Proof.
  revert bsky_dids st.
  induction items as [|author items IH]; intros bsky_dids st Hr did Hin.
  - simpl in Hr. injection Hr as <-. by left.
  - destruct author as [| | | | | |d]; try done.
    rewrite for_author_in_object in *.
    destruct (truthy (platform_id (VDict d))) eqn:Ht; [|by apply IH].
    destruct (hash_key (platform_id (VDict d))) as [k|e] eqn:Hkey; [|done].
    destruct (IH _ _ Hr did Hin) as [Hacc|Hres]; [|by right].
    apply elem_of_app in Hacc as [Hacc|Hnew]; [by left|].
    apply list_elem_of_singleton in Hnew as ->.
    right. split; [done|]. exists k. split; [done|].
    apply for_author_in_keeps_keys. simpl. rewrite lookup_insert_eq. eauto.
Qed.

(** X15. Every did the load returns can be resolved: it is truthy, it can
    be a dictionary key, and the roster the load leaves holds a record
    under it. The worker never subscribes to an author it cannot look up. *)
Theorem returned_dids_resolve st dids did :
  returned (fetch_subscribed_authors st) = Ok dids ->
  did ∈ dids ->
  truthy did = true
  /\ exists key info,
       hash_key did = Ok key
       /\ SUBSCRIBED_AUTHORS_DATA (state_after (fetch_subscribed_authors st))
            !! key = Some info.
Proof.
  intros Hr Hin.
  destruct (fetched authors_api) as [authors|e] eqn:Hf.
  - destruct (truthy authors) eqn:Ht.
    + rewrite (fetch_loads _ _ Hf Ht) in *.
      destruct (iterate authors) as [items|e].
      * cbv zeta in *.
        pose proof (for_author_in_resolves items []
                      (State ∅ (requests_issued st))) as Hres.
        destruct (returned (for_author_in items [] _)) as [bsky_dids|e];
          simpl in *.
        -- injection Hr as <-.
           destruct (Hres _ eq_refl did Hin) as [Hnil|(Htr & key & Hk & [info Hi])].
           ++ by apply elem_of_nil in Hnil.
           ++ eauto.
        -- injection Hr as <-. by apply elem_of_nil in Hin.
      * simpl in Hr. injection Hr as <-. by apply elem_of_nil in Hin.
    + rewrite (fetch_empty _ _ Hf Ht) in Hr. injection Hr as <-.
      by apply elem_of_nil in Hin.
  - rewrite (fetch_raises _ _ Hf) in Hr.
    destruct e; simpl in Hr; simplify_eq; by apply elem_of_nil in Hin.
Qed.

(** *** Every event of a run *)

Abbreviation expected := (expected_event API_BASE_URL ADMIN_API_KEY).
Abbreviation from_client := (client_events API_BASE_URL ADMIN_API_KEY).

Lemma from_client_nil : from_client [].
Proof. by split. Qed.

Lemma from_client_app evs evs' :
  from_client evs -> from_client evs' -> from_client (evs ++ evs').
Proof.
  intros [Hf Hr] [Hf' Hr']. split.
  - by apply Forall_app.
  - unfold roster_requests in *. by rewrite omap_app, Hr, Hr'.
Qed.

Lemma from_client_cons ev evs :
  expected ev -> (forall url auth t, ev <> HttpGet url auth t) ->
  from_client evs -> from_client (ev :: evs).
Proof.
  intros He Hno [Hf Hr]. split; [by constructor|].
  change (roster_requests (ev :: evs))
    with (roster_requests ([ev] ++ evs)).
  unfold roster_requests in *. rewrite omap_app, Hr.
  destruct ev as [| url auth t | | |]; try done. by destruct (Hno url auth t).
Qed.

Lemma from_client_logs evs : forallb is_log evs = true -> from_client evs.
Proof.
  induction evs as [|ev evs IH]; simpl; [intros _; apply from_client_nil|].
  destruct ev; simpl; try discriminate.
  intros H. apply from_client_cons; [done|done|by apply IH].
Qed.

Lemma trigger_workflow_events author_id post_text st :
  truthy author_id = true -> truthy post_text = true ->
  from_client (events (trigger_workflow author_id post_text st)).
Proof.
  intros Ha Ht.
  assert (expected (HttpPost
            (API_BASE_URL ++ "process-tweet/trigger-workflow")%string
            (trigger_payload author_id post_text)
            (authorization ADMIN_API_KEY) 15)) as Hpost
    by (simpl; split_and!; eauto).
  unfold trigger_workflow, try_except, bind, log, emit, client_post, lift,
    raise_for_status; simpl.
  repeat (case_match; simpl in *; simplify_eq);
    repeat (apply from_client_cons; [done|done|]); apply from_client_nil.
Qed.

Lemma process_message_events message st :
  from_client (events (process_message message st)).
Proof.
  destruct (process_message_cases message st)
    as [(_ & _ & Hl & _)
       |(data & commit & record & did & key & info & author_id & post_text
         & p100 & Hrest)].
  - by apply from_client_logs.
  - destruct Hrest
      as (_ & _ & _ & _ & _ & _ & _ & _ & Ha & _ & _ & _ & Ht & _ & ->).
    pose proof (trigger_workflow_events author_id post_text st Ha Ht) as H.
    unfold bind, log, emit.
    destruct (trigger_workflow author_id post_text st) as [evs st' r].
    simpl in *. by apply from_client_cons.
Qed.

Lemma on_message_events message st :
  from_client (events (on_message message st)).
Proof.
  pose proof (process_message_events message st) as H.
  destruct (returned (process_message message st)) as [[]|e] eqn:Hr.
  - by rewrite on_message_returns.
  - destruct (is_Exception e) eqn:He.
    + destruct (on_message_catches _ _ _ Hr He) as (lvl & msg & ->). simpl.
      apply from_client_app; [done|].
      apply from_client_cons; [done|done|apply from_client_nil].
    + by rewrite (on_message_lets_through _ _ _ Hr He).
Qed.

Lemma listen_events messages ending st :
  from_client (events (listen messages ending st)).
Proof.
  revert st. induction messages as [|message rest IH]; intros st.
  - destruct ending; apply from_client_nil.
  - simpl. unfold bind.
    pose proof (on_message_events message st) as H.
    destruct (on_message message st) as [evs st' [[]|e]]; simpl in *; [|done].
    pose proof (IH st') as H'.
    destruct (listen rest ending st') as [evs2 st2 r2]; simpl in *.
    by apply from_client_app.
Qed.

Lemma connect_and_listen_events subscribed_dids s st :
  subscribed_dids <> [] ->
  from_client (events (connect_and_listen subscribed_dids s st)).
Proof.
  intros Hne. unfold connect_and_listen, bind, emit, log.
  destruct s as [e|messages ending]; simpl.
  - apply from_client_cons; [done|done|apply from_client_nil].
  - pose proof (listen_events messages ending st) as H.
    destruct (listen messages ending st) as [evs st' r]; simpl in *.
    apply from_client_cons; [done|done|].
    by apply from_client_cons.
Qed.

Lemma loop_body_events subscribed_dids s st :
  subscribed_dids <> [] ->
  from_client (events (loop_body subscribed_dids s st)).
Proof.
  intros Hne.
  pose proof (connect_and_listen_events subscribed_dids s st Hne) as H.
  destruct (returned (connect_and_listen subscribed_dids s st)) as [[]|e] eqn:Hr.
  - rewrite (loop_body_after_end _ _ _ Hr). simpl.
    apply from_client_app; [done|].
    apply from_client_cons; [simpl; auto|done|apply from_client_nil].
  - destruct (is_Exception e) eqn:He.
    + assert (e = ConnectionClosed \/ e <> ConnectionClosed) as [->|Hno]
        by (destruct e; auto).
      * rewrite (loop_body_after_close _ _ _ Hr). simpl.
        apply from_client_app; [done|].
        repeat (apply from_client_cons; [simpl; auto|done|]).
        apply from_client_nil.
      * rewrite (loop_body_after_error _ _ _ _ Hr He Hno). simpl.
        apply from_client_app; [done|].
        repeat (apply from_client_cons; [simpl; auto|done|]).
        apply from_client_nil.
    + by rewrite (loop_body_lets_through _ _ _ _ Hr He).
Qed.

Lemma while_true_events subscribed_dids feed st :
  subscribed_dids <> [] ->
  from_client (events (while_true subscribed_dids feed st)).
Proof.
  intros Hne. revert st. induction feed as [|s feed IH]; intros st.
  - apply from_client_nil.
  - pose proof (loop_body_events subscribed_dids s st Hne) as H.
    destruct (returned (loop_body subscribed_dids s st)) as [[]|e] eqn:Hr.
    + rewrite (while_true_next _ _ _ _ Hr). simpl.
      by apply from_client_app.
    + by rewrite (while_true_left _ _ _ _ _ Hr).
Qed.

Lemma websocket_client_events subscribed_dids feed st :
  from_client (events (websocket_client subscribed_dids feed st)).
Proof.
  destruct subscribed_dids as [|did dids].
  - rewrite websocket_client_idle. simpl.
    apply from_client_cons; [done|done|apply from_client_nil].
  - rewrite websocket_client_started by done.
    by apply while_true_events.
Qed.

(** The load: the request of line 38 and log entries. *)
Lemma fetch_events st :
  exists logs,
    events (fetch_subscribed_authors st) = prefix ++ logs
    /\ forallb is_log logs = true.
Proof.
  destruct (fetched authors_api) as [authors|e] eqn:Hf.
  - destruct (truthy authors) eqn:Ht.
    + rewrite (fetch_loads _ _ Hf Ht).
      destruct (iterate authors) as [items|e]; [|by eexists].
      cbv zeta. destruct (returned (for_author_in items [] _)); by eexists.
    + rewrite (fetch_empty _ _ Hf Ht). by eexists.
  - rewrite (fetch_raises _ _ Hf).
    destruct e; simpl; by eexists.
Qed.

Lemma main_events feed st :
  exists logs tail,
    events (main feed st) = Log INFO WorkerStarting :: prefix ++ logs ++ tail
    /\ forallb is_log logs = true
    /\ from_client tail.
Proof.
  destruct (fetch_events st) as (logs & Hev & Hlogs).
  exists logs.
  destruct (returned (fetch_subscribed_authors st)) as [dids|e] eqn:Hr.
  - exists (events (websocket_client dids feed
                      (state_after (fetch_subscribed_authors st)))).
    rewrite (main_run _ _ _ Hr). simpl. rewrite Hev, <- app_assoc.
    split_and!; [done|done|apply websocket_client_events].
  - exists []. unfold main, bind, log, emit. simpl.
    destruct (fetch_subscribed_authors st) as [evs st' [dids|e']];
      simpl in *; simplify_eq.
    rewrite app_nil_r. split_and!; [done|done|apply from_client_nil].
Qed.

(** X16. The roster is requested once and never again: whatever the feed
    delivers and however long the worker runs, [main] issues exactly one
    roster request, to the [authors/bluesky] endpoint under the base URL. *)
Theorem roster_is_requested_once feed st :
  roster_requests (events (main feed st)) =
    [(API_BASE_URL ++ "authors/bluesky")%string].
Proof.
  destruct (main_events feed st) as (logs & tail & -> & Hlogs & _ & Htail).
  destruct (from_client_logs _ Hlogs) as (_ & Hl).
  unfold roster_requests in *. simpl.
  by rewrite !omap_app, Hl, Htail.
Qed.

(** X17. Every event of [main] is an expected one: each HTTP request goes
    to its endpoint under the base URL with the bearer header of the key
    and its timeout (10 for the roster, 15 for the workflow); each workflow
    request carries a truthy author id and a truthy text; each connection
    goes to the jetstream endpoint with at least one did; each sleep lasts
    5 or 10. *)
Theorem main_causes_expected_events feed st :
  Forall (expected_event API_BASE_URL ADMIN_API_KEY) (events (main feed st)).
Proof.
  destruct (main_events feed st) as (logs & tail & -> & Hlogs & Htail & _).
  destruct (from_client_logs _ Hlogs) as (Hl & _).
  constructor; [done|].
  apply Forall_app. split; [by repeat constructor|].
  by apply Forall_app.
Qed.

(** *** A message that passes every filter *)

Lemma passed_message_forwards
  message data commit record key info author_id post_text post_text_100 st :
  json_loads message = Ok data ->
  field data "kind" = Some (VStr "commit") ->
  field data "commit" = Some commit ->
  field commit "operation" = Some (VStr "create") ->
  hash_key (default VNone (field data "did")) = Ok key ->
  SUBSCRIBED_AUTHORS_DATA st !! key = Some info ->
  field info "id" = Some author_id ->
  truthy author_id = true ->
  field commit "collection" = Some (VStr "app.bsky.feed.post") ->
  field commit "record" = Some record ->
  field record "text" = Some post_text ->
  truthy post_text = true ->
  slice_to 100 post_text = Ok post_text_100 ->
  forward_calls (events (process_message message st)) =
    [trigger_payload author_id post_text].
Proof.
  intros Hload Hkind Hcommit Hop Hkey Hinfo Hid Ha Hcoll Hrec Htext Ht Hslice.
  assert (info = default (VDict ∅) (SUBSCRIBED_AUTHORS_DATA st !! key))
    as Hinfo' by (by rewrite Hinfo).
  assert (get info "id" = Ok author_id) as Hid'.
  { destruct info; try discriminate. simpl in *. unfold get, get_default.
    by rewrite Hid. }
  assert (process_message message st =
            (log INFO (NewPost author_id post_text_100) ;;
             trigger_workflow author_id post_text) st) as ->.
  { rewrite (process_message_reaches_text message data commit record key info
               author_id post_text st Hload Hkind Hcommit Hop Hkey Hinfo' Hid'
               Hcoll Hrec Htext).
    unfold bind at 1, lift at 1. rewrite Hslice, Ha, Ht. simpl andb. cbv iota.
    unfold bind, log, emit.
    by destruct (trigger_workflow author_id post_text st). }
  by destruct (log_then_trigger author_id post_text
                 (NewPost author_id post_text_100) st) as (Hcalls & _).
Qed.

End Properties.

(** ** The scenarios, run *)

Import Scenario.

(** The roster scenario of the specification: the subscription list is
    ["did:abc"] and the roster maps "did:abc" to the internal id 42. *)
Example roster_scenario :
  returned (fetch_subscribed_authors base_url api_key authors_reply initial)
    = Ok [VStr "did:abc"]
  /\ SUBSCRIBED_AUTHORS_DATA loaded !! KStr "did:abc" = Some abc_info
  /\ field abc_info "id" = Some (VInt 42).
Proof. vm_compute. done. Qed.

(** The stream scenario: the new post is forwarded with the id 42 and the
    text "hello". *)
Lemma new_post_is_forwarded_once_witness :
  exists payload,
    forward_calls
      (events (on_message base_url api_key loads accepts "create hello" loaded))
      = [payload]
    /\ field payload "tweet_author_id" = Some (VInt 42)
    /\ field payload "tweet_content" = Some (VStr "hello").
Proof.
  apply (new_post_is_forwarded_once base_url api_key loads accepts
           "create hello" (post_of "create" "hello") (hello_commit "create")
           hello_record (VStr "did:abc") (KStr "did:abc") abc_info (VInt 42)
           "hello" loaded);
    solve [vm_compute; reflexivity | discriminate].
Defined.

(** The same message with the operation "update" is not forwarded. *)
Lemma other_messages_are_not_forwarded_witness :
  forward_calls
    (events (on_message base_url api_key loads accepts "update hello" loaded))
    = []
  /\ forallb is_log
       (events (on_message base_url api_key loads accepts "update hello" loaded))
     = true
  /\ state_after (on_message base_url api_key loads accepts "update hello" loaded)
     = loaded
  /\ returned (on_message base_url api_key loads accepts "update hello" loaded)
     = Ok tt.
Proof.
  apply (other_messages_are_not_forwarded base_url api_key loads accepts
           "update hello" (post_of "update" "hello") loaded).
  - vm_compute. reflexivity.
  - right. left. vm_compute. discriminate.
Defined.

(** An author whose internal id is 0 is never forwarded. *)
Lemma falsy_internal_id_is_not_forwarded_witness :
  let st := state_after
              (fetch_subscribed_authors base_url api_key zero_id_reply initial) in
  forward_calls
    (events (on_message base_url api_key loads accepts "create hello" st)) = []
  /\ state_after (on_message base_url api_key loads accepts "create hello" st)
     = st.
Proof.
  apply (falsy_internal_id_is_not_forwarded base_url api_key loads accepts
           "create hello" (post_of "create" "hello")).
  - vm_compute. reflexivity.
  - intros key info Hkey Hinfo.
    vm_compute in Hkey. injection Hkey as <-.
    vm_compute in Hinfo. injection Hinfo as <-.
    vm_compute. reflexivity.
Defined.

(** A post forwarded while the workflow API answers 503, followed by a
    second post on the same connection. *)
Lemma failed_forward_is_contained_witness :
  let r := on_message base_url api_key loads unavailable "create hello" loaded in
  returned r = Ok tt
  /\ forward_calls (events r) = [trigger_payload (VInt 42) (VStr "hello")]
  /\ errors_logged (events r) = [ApiRequestFailed 503 "unavailable"]
  /\ state_after r = State (SUBSCRIBED_AUTHORS_DATA loaded) 1
  /\ listen base_url api_key loads unavailable
       ["create hello"; "create bye"] Exhausted loaded =
     Run (events r
            ++ events (listen base_url api_key loads unavailable
                         ["create bye"] Exhausted (state_after r)))
         (state_after (listen base_url api_key loads unavailable
                         ["create bye"] Exhausted (state_after r)))
         (returned (listen base_url api_key loads unavailable
                      ["create bye"] Exhausted (state_after r))).
Proof.
  apply (failed_forward_is_contained base_url api_key loads unavailable
           "create hello" ["create bye"] Exhausted loaded
           (trigger_payload (VInt 42) (VStr "hello"))
           (HTTPStatusError 503 "unavailable")).
  - vm_compute. reflexivity.
  - vm_compute. reflexivity.
Defined.

(** A text that is not JSON, followed by a post on the same connection. *)
Lemma malformed_message_is_skipped_witness :
  returned (on_message base_url api_key loads accepts "not json" loaded) = Ok tt
  /\ (exists lvl msg,
        events (on_message base_url api_key loads accepts "not json" loaded) =
          events (process_message base_url api_key loads accepts "not json" loaded)
            ++ [Log lvl msg])
  /\ SUBSCRIBED_AUTHORS_DATA
       (state_after (on_message base_url api_key loads accepts "not json" loaded))
     = SUBSCRIBED_AUTHORS_DATA loaded
  /\ (loads "not json" = Raise JSONDecodeError ->
      exists lvl msg,
        on_message base_url api_key loads accepts "not json" loaded =
          Run [Log lvl msg] loaded (Ok tt))
  /\ listen base_url api_key loads accepts
       ["not json"; "create hello"] Exhausted loaded =
     Run (events (on_message base_url api_key loads accepts "not json" loaded)
            ++ events (listen base_url api_key loads accepts ["create hello"]
                         Exhausted
                         (state_after (on_message base_url api_key loads accepts
                                         "not json" loaded))))
         (state_after (listen base_url api_key loads accepts ["create hello"]
                         Exhausted
                         (state_after (on_message base_url api_key loads accepts
                                         "not json" loaded))))
         (returned (listen base_url api_key loads accepts ["create hello"]
                      Exhausted
                      (state_after (on_message base_url api_key loads accepts
                                      "not json" loaded)))).
Proof.
  apply (malformed_message_is_skipped base_url api_key loads accepts
           "not json" ["create hello"] Exhausted loaded JSONDecodeError).
  - vm_compute. reflexivity.
  - reflexivity.
Defined.

(** A connection that the remote end closed cleanly against one that ended
    abnormally, so that [ConnectionClosed] was raised: the worker sleeps 5
    after either. *)
Lemma closed_connection_waits_five :
  let dids := [VStr "did:abc"] in
  let failed := Established ["create hello"] (Broken ConnectionClosed) in
  let clean := Established ["create hello"] Exhausted in
  total_sleep
    (events (loop_body base_url api_key loads accepts dids failed loaded)) = 5%Z
  /\ total_sleep
       (events (loop_body base_url api_key loads accepts dids clean loaded))
     = 5%Z
  /\ ~ error_waits_longer base_url api_key loads accepts dids.
Proof.
  split_and!; try (vm_compute; reflexivity).
  intros H.
  specialize (H (Established ["create hello"] (Broken ConnectionClosed))
                (Established ["create hello"] Exhausted) loaded loaded).
  assert (5 < 5)%Z as Hlt; [|lia].
  apply H.
  - by exists ["create hello"], ConnectionClosed.
  - by exists ["create hello"].
  - vm_compute. reflexivity.
  - vm_compute. reflexivity.
Qed.

(** A refused connection against a connection that was closed, each with
    one more session to follow. *)
Lemma error_disconnect_waits_longer_witness :
  let dids := [VStr "did:abc"] in
  let failed := Refused OtherException in
  let closed := Established ["create hello"] (Broken ConnectionClosed) in
  let feed := [Established ["create hello"] Exhausted] in
  let body := loop_body base_url api_key loads accepts dids in
  let session := connect_and_listen base_url api_key loads accepts dids in
  let client := websocket_client base_url api_key loads accepts dids in
  total_sleep (events (body failed loaded)) = (10 + 5)%Z
  /\ total_sleep (events (body closed loaded)) = 5%Z
  /\ (total_sleep (events (body closed loaded))
      < total_sleep (events (body failed loaded)))%Z
  /\ returned (body failed loaded) = Ok tt
  /\ events (client (failed :: feed) loaded) =
       events (session failed loaded)
         ++ [Log ERROR (WebsocketClientError OtherException);
             Sleep 10; Sleep 5]
         ++ events (client feed (state_after (session failed loaded)))
  /\ (returned (session closed loaded) = Raise ConnectionClosed ->
      events (client (closed :: feed) loaded) =
        events (session closed loaded)
          ++ [Log WARNING ConnectionClosedReconnecting; Sleep 5]
          ++ events (client feed (state_after (session closed loaded))))
  /\ (returned (session closed loaded) = Ok tt ->
      events (client (closed :: feed) loaded) =
        events (session closed loaded)
          ++ [Sleep 5]
          ++ events (client feed (state_after (session closed loaded))))
  /\ total_sleep (events (session failed loaded)) = 0%Z
  /\ total_sleep (events (session closed loaded)) = 0%Z
  /\ (forall next rest st2,
        head (events (client (next :: rest) st2)) =
          Some (WsConnect WEBSOCKET_BASE_URL dids)).
Proof.
  apply (error_disconnect_waits_longer base_url api_key loads accepts
           [VStr "did:abc"] (Refused OtherException) loaded OtherException
           (Established ["create hello"] (Broken ConnectionClosed)) loaded
           [Established ["create hello"] Exhausted]).
  - discriminate.
  - vm_compute. reflexivity.
  - reflexivity.
  - discriminate.
  - left. vm_compute. reflexivity.
Defined.

(** An empty roster answer, with a feed that would deliver a post. *)
Lemma empty_subscription_opens_no_connection_witness :
  let feed := [Established ["create hello"] Exhausted] in
  let st := state_after (fetch_subscribed_authors base_url api_key
                           no_authors_reply initial) in
  websocket_client base_url api_key loads accepts [] feed st =
    Run [Log WARNING NoAuthorsToSubscribe] st (Ok Returned)
  /\ returned (main base_url api_key loads no_authors_reply accepts feed initial)
     = Ok Returned
  /\ connections
       (events (main base_url api_key loads no_authors_reply accepts feed initial))
     = []
  /\ forward_calls
       (events (main base_url api_key loads no_authors_reply accepts feed initial))
     = [].
Proof.
  apply (empty_subscription_opens_no_connection base_url api_key loads
           no_authors_reply accepts
           [Established ["create hello"] Exhausted] initial).
  vm_compute. reflexivity.
Defined.

(** A control API that cannot be reached. *)
Lemma failed_fetch_returns_no_dids_witness :
  let feed := [Established ["create hello"] Exhausted] in
  returned (fetch_subscribed_authors base_url api_key unreachable initial) = Ok []
  /\ state_after (fetch_subscribed_authors base_url api_key unreachable initial)
     = initial
  /\ (exists msg,
        errors_logged
          (events (fetch_subscribed_authors base_url api_key unreachable initial))
        = [msg])
  /\ returned (main base_url api_key loads unreachable accepts feed initial)
     = Ok Returned
  /\ connections
       (events (main base_url api_key loads unreachable accepts feed initial)) = []
  /\ forward_calls
       (events (main base_url api_key loads unreachable accepts feed initial)) = [].
Proof.
  apply (failed_fetch_returns_no_dids base_url api_key loads unreachable accepts
           [Established ["create hello"] Exhausted] initial RequestError).
  - reflexivity.
  - left. reflexivity.
Defined.

(** C3 does not hold as an atomic replacement. On a roster answer whose
    second item is not an object the load fails at that item and returns no
    did, yet the roster, empty before, now holds the first entry and not the
    third: it is neither what it was nor the records of the answer. *)
Lemma load_is_not_atomic :
  returned (fetch_subscribed_authors base_url api_key broken_reply initial) = Ok []
  /\ errors_logged
       (events (fetch_subscribed_authors base_url api_key broken_reply initial))
     = [UnexpectedFetchError AttributeError]
  /\ SUBSCRIBED_AUTHORS_DATA
       (state_after
          (fetch_subscribed_authors base_url api_key broken_reply initial))
       !! KStr "did:a" = Some (identity_record entry_a)
  /\ SUBSCRIBED_AUTHORS_DATA
       (state_after
          (fetch_subscribed_authors base_url api_key broken_reply initial))
       !! KStr "did:b" = None
  /\ ~ atomic_load base_url api_key broken_reply initial.
Proof.
  split_and!; try (vm_compute; reflexivity).
  unfold atomic_load. cbv zeta. intros [Hsame|(authors & Hf & Hall)].
  - apply (f_equal (λ m : gmap hkey pyval, m !! KStr "did:a")) in Hsame.
    vm_compute in Hsame. discriminate.
  - injection Hf as <-.
    apply (f_equal (λ m : gmap hkey pyval, m !! KStr "did:b")) in Hall.
    vm_compute in Hall. discriminate.
Qed.

(** The roster scenario, loaded over a roster that held another author. *)
Lemma load_keeps_or_refills_roster_witness :
  let before := State {[ KStr "did:old" := abc_info ]} 0 in
  fetch_subscribed_authors base_url api_key authors_reply before =
    Run (fetch_prefix base_url api_key ++ [Log INFO (FetchedAuthors 1)])
        (State (decoded_roster
                  [VDict {[ "platform_id" := VStr "did:abc"; "id" := VInt 42;
                            "name" := VStr "A"; "author_context" := VNone ]}])
               0)
        (Ok [VStr "did:abc"]).
Proof.
  cbv zeta.
  destruct (load_keeps_or_refills_roster base_url api_key authors_reply
              (State {[ KStr "did:old" := abc_info ]} 0))
    as (_ & _ & _ & Hentries & _).
  rewrite (Hentries authors
             [VDict {[ "platform_id" := VStr "did:abc"; "id" := VInt 42;
                       "name" := VStr "A"; "author_context" := VNone ]}]).
  - vm_compute. reflexivity.
  - reflexivity.
  - reflexivity.
  - reflexivity.
  - repeat constructor; [eexists; reflexivity|].
    intros _. eexists. vm_compute. reflexivity.
Defined.


(** ** Forwarding does not depend on the workflow API *)

Section Independence.

Variable API_BASE_URL : string.
Variable ADMIN_API_KEY : option string.
Variable json_loads : string -> result pyval.
Variables workflow_api workflow_api' : nat -> pyval -> http_reply.

(** What [process_message] forwards is decided by the message and the
    roster alone. *)
Lemma process_message_calls_independent message st st' :
  SUBSCRIBED_AUTHORS_DATA st = SUBSCRIBED_AUTHORS_DATA st' ->
  forward_calls
    (events (process_message API_BASE_URL ADMIN_API_KEY json_loads
               workflow_api message st)) =
  forward_calls
    (events (process_message API_BASE_URL ADMIN_API_KEY json_loads
               workflow_api' message st')).
Proof.
  intros Hroster.
  destruct (process_message_cases API_BASE_URL ADMIN_API_KEY json_loads
              workflow_api message st)
    as [(Hc & _)
       |(data & commit & record & did & key & info & author_id & post_text
         & p100 & Hload & Hkind & Hcommit & Hop & -> & Hkey & Hinfo & Hid
         & Ha & Hcoll & Hrec & Htext & Ht & Hslice & _)].
  - destruct (process_message_cases API_BASE_URL ADMIN_API_KEY json_loads
                workflow_api' message st')
      as [(Hc' & _)
         |(data & commit & record & did & key & info & author_id & post_text
           & p100 & Hload & Hkind & Hcommit & Hop & -> & Hkey & Hinfo & Hid
           & Ha & Hcoll & Hrec & Htext & Ht & Hslice & _)].
    + by rewrite Hc, Hc'.
    + rewrite <- Hroster in Hinfo.
      rewrite (passed_message_forwards API_BASE_URL ADMIN_API_KEY json_loads
                 workflow_api _ _ _ _ _ _ _ _ _ st Hload Hkind Hcommit Hop
                 Hkey Hinfo Hid Ha Hcoll Hrec Htext Ht Hslice) in Hc.
      discriminate.
  - rewrite (passed_message_forwards API_BASE_URL ADMIN_API_KEY json_loads
               workflow_api _ _ _ _ _ _ _ _ _ st Hload Hkind Hcommit Hop
               Hkey Hinfo Hid Ha Hcoll Hrec Htext Ht Hslice).
    rewrite Hroster in Hinfo.
    by rewrite (passed_message_forwards API_BASE_URL ADMIN_API_KEY json_loads
                  workflow_api' _ _ _ _ _ _ _ _ _ st' Hload Hkind Hcommit Hop
                  Hkey Hinfo Hid Ha Hcoll Hrec Htext Ht Hslice).
Qed.

Lemma on_message_calls_independent message st st' :
  SUBSCRIBED_AUTHORS_DATA st = SUBSCRIBED_AUTHORS_DATA st' ->
  forward_calls
    (events (on_message API_BASE_URL ADMIN_API_KEY json_loads
               workflow_api message st)) =
  forward_calls
    (events (on_message API_BASE_URL ADMIN_API_KEY json_loads
               workflow_api' message st')).
Proof.
  intros Hroster.
  destruct (on_message_effects API_BASE_URL ADMIN_API_KEY json_loads
              workflow_api message st) as (-> & _).
  destruct (on_message_effects API_BASE_URL ADMIN_API_KEY json_loads
              workflow_api' message st') as (-> & _).
  by apply process_message_calls_independent.
Qed.

(** X19. Whether a message is forwarded, and with what body, is decided by
    the message and the roster alone: it is the same whatever the workflow
    API answers, now or to earlier requests. A failing workflow API changes
    the log, not the requests. *)
Theorem forwarding_ignores_workflow_answers message st st' :
  SUBSCRIBED_AUTHORS_DATA st = SUBSCRIBED_AUTHORS_DATA st' ->
  forward_calls
    (events (on_message API_BASE_URL ADMIN_API_KEY json_loads
               workflow_api message st)) =
  forward_calls
    (events (on_message API_BASE_URL ADMIN_API_KEY json_loads
               workflow_api' message st')).
Proof. apply on_message_calls_independent. Qed.

End Independence.

(** X20. Nothing is remembered between messages: a message that arrives
    twice on a connection is forwarded twice, with the same body. *)
Theorem repeated_message_is_forwarded_again
  API_BASE_URL ADMIN_API_KEY json_loads workflow_api message ending st :
  returned (on_message API_BASE_URL ADMIN_API_KEY json_loads workflow_api
              message st) = Ok tt ->
  forward_calls
    (events (listen API_BASE_URL ADMIN_API_KEY json_loads workflow_api
               [message; message] ending st)) =
  forward_calls
    (events (on_message API_BASE_URL ADMIN_API_KEY json_loads workflow_api
               message st))
  ++ forward_calls
       (events (on_message API_BASE_URL ADMIN_API_KEY json_loads workflow_api
                  message st)).
Proof.
  intros Hr.
  rewrite (listen_next API_BASE_URL ADMIN_API_KEY json_loads workflow_api
             message [message] ending st Hr).
  simpl events at 1. rewrite forward_calls_app. f_equal.
  pose proof (on_message_keeps_roster API_BASE_URL ADMIN_API_KEY json_loads
                workflow_api message st) as Hk.
  set (st' := state_after (on_message API_BASE_URL ADMIN_API_KEY json_loads
                              workflow_api message st)) in *.
  rewrite (on_message_calls_independent API_BASE_URL ADMIN_API_KEY json_loads
             workflow_api workflow_api message st st') by done.
  simpl listen. unfold bind.
  destruct (on_message API_BASE_URL ADMIN_API_KEY json_loads workflow_api
              message st') as [evs st2 [[]|e]]; simpl; [|done].
  destruct ending; simpl; by rewrite app_nil_r.
Qed.

(** The requests of a connection are those of its messages, one message
    after the other, each decided against the roster the connection started
    with. *)
Lemma listen_forwards_each
  API_BASE_URL ADMIN_API_KEY json_loads workflow_api messages ending st st' :
  SUBSCRIBED_AUTHORS_DATA st' = SUBSCRIBED_AUTHORS_DATA st ->
  returned (listen API_BASE_URL ADMIN_API_KEY json_loads workflow_api
              messages Exhausted st') = Ok tt ->
  forward_calls
    (events (listen API_BASE_URL ADMIN_API_KEY json_loads workflow_api
               messages ending st')) =
  flat_map
    (λ message,
       forward_calls
         (events (on_message API_BASE_URL ADMIN_API_KEY json_loads
                    workflow_api message st)))
    messages.
Proof.
  revert st'. induction messages as [|message rest IH]; intros st' Hroster Hr.
  - by destruct ending.
  - assert (returned (on_message API_BASE_URL ADMIN_API_KEY json_loads
                        workflow_api message st') = Ok tt) as Hm.
    { simpl in Hr. unfold bind in Hr.
      by destruct (on_message API_BASE_URL ADMIN_API_KEY json_loads
                     workflow_api message st') as [evs st1 [[]|e]]. }
    rewrite (listen_next API_BASE_URL ADMIN_API_KEY json_loads workflow_api
               message rest Exhausted st' Hm) in Hr.
    rewrite (listen_next API_BASE_URL ADMIN_API_KEY json_loads workflow_api
               message rest ending st' Hm).
    simpl in *. rewrite forward_calls_app. f_equal.
    + by apply on_message_calls_independent.
    + apply IH; [|done].
      by rewrite (on_message_keeps_roster API_BASE_URL ADMIN_API_KEY
                    json_loads workflow_api message st').
Qed.

(** X18. The messages of a connection are dealt with one at a time, in the
    order they arrive, and none is passed over: the workflow requests of a
    connection that no interruption cut short are the requests each message
    causes by itself, message after message, however the connection ends. *)
Theorem listen_in_arrival_order
  API_BASE_URL ADMIN_API_KEY json_loads workflow_api messages ending st :
  returned (listen API_BASE_URL ADMIN_API_KEY json_loads workflow_api
              messages Exhausted st) = Ok tt ->
  forward_calls
    (events (listen API_BASE_URL ADMIN_API_KEY json_loads workflow_api
               messages ending st)) =
  flat_map
    (λ message,
       forward_calls
         (events (on_message API_BASE_URL ADMIN_API_KEY json_loads
                    workflow_api message st)))
    messages.
Proof. by apply listen_forwards_each. Qed.

(** ** The scenarios at the edges, run *)

Import Edge.

(** A workflow request that is cancelled: the message raises. *)
Lemma on_message_raises_no_exception_witness :
  is_Exception NonException = false
  /\ (Scenario.loads "create hello" = Raise NonException
      /\ on_message base_url api_key Scenario.loads cancelled "create hello"
           loaded = Run [] loaded (Raise NonException)
      \/ exists payload,
           forward_calls
             (events (on_message base_url api_key Scenario.loads cancelled
                        "create hello" loaded)) = [payload]
           /\ cancelled (requests_issued loaded) payload = Fails NonException).
Proof.
  apply (on_message_raises_no_exception base_url api_key Scenario.loads
           cancelled "create hello" loaded NonException).
  vm_compute. reflexivity.
Defined.

Lemma websocket_client_does_not_return_witness :
  returned (websocket_client base_url api_key Scenario.loads accepts
              [VStr "did:abc"] three_sessions loaded) = Ok Looping
  \/ exists e,
       returned (websocket_client base_url api_key Scenario.loads accepts
                   [VStr "did:abc"] three_sessions loaded) = Raise e
       /\ is_Exception e = false.
Proof.
  apply (websocket_client_does_not_return base_url api_key Scenario.loads
           accepts [VStr "did:abc"] three_sessions loaded).
  discriminate.
Defined.

Lemma one_connection_per_session_witness :
  connections
    (events (websocket_client base_url api_key Scenario.loads accepts
               [VStr "did:abc"] three_sessions loaded)) =
    [[VStr "did:abc"]; [VStr "did:abc"]; [VStr "did:abc"]].
Proof.
  apply (one_connection_per_session base_url api_key Scenario.loads accepts
           [VStr "did:abc"] three_sessions loaded).
  - discriminate.
  - vm_compute. reflexivity.
Defined.

Lemma reconnects_are_paced_witness :
  paced [VStr "did:abc"]
    (events (websocket_client base_url api_key Scenario.loads accepts
               [VStr "did:abc"] three_sessions loaded))
  /\ (5 * 3
        <= total_sleep
             (events (websocket_client base_url api_key Scenario.loads accepts
                        [VStr "did:abc"] three_sessions loaded))
        <= 15 * 3)%Z.
Proof.
  apply (reconnects_are_paced base_url api_key Scenario.loads accepts
           [VStr "did:abc"] three_sessions loaded).
  - discriminate.
  - vm_compute. reflexivity.
Defined.

(** A cancellation during the first of three sessions. *)
Lemma interruption_leaves_client_witness :
  let first := Established ["create hello"] Exhausted in
  events (websocket_client base_url api_key Scenario.loads cancelled
            [VStr "did:abc"] (first :: three_sessions) loaded) =
    events (connect_and_listen base_url api_key Scenario.loads cancelled
              [VStr "did:abc"] first loaded)
  /\ returned (websocket_client base_url api_key Scenario.loads cancelled
                 [VStr "did:abc"] (first :: three_sessions) loaded)
     = Raise NonException
  /\ connections
       (events (websocket_client base_url api_key Scenario.loads cancelled
                  [VStr "did:abc"] (first :: three_sessions) loaded))
     = [[VStr "did:abc"]]
  /\ total_sleep
       (events (websocket_client base_url api_key Scenario.loads cancelled
                  [VStr "did:abc"] (first :: three_sessions) loaded)) = 0%Z.
Proof.
  apply (interruption_leaves_client base_url api_key Scenario.loads cancelled
           [VStr "did:abc"] (Established ["create hello"] Exhausted)
           three_sessions loaded NonException).
  - discriminate.
  - vm_compute. reflexivity.
  - reflexivity.
Defined.

(** A post by the rostered author whose text is the number 5. *)
Lemma unsliceable_text_is_dropped_witness :
  on_message base_url api_key loads accepts "create 5" loaded =
    Run [Log ERROR (MessageProcessingError TypeError)] loaded (Ok tt).
Proof.
  apply (unsliceable_text_is_dropped base_url api_key loads accepts "create 5"
           numbered_post
           (VDict {[ "operation" := VStr "create";
                     "collection" := VStr "app.bsky.feed.post";
                     "record" := VDict {[ "text" := VInt 5 ]} ]})
           (VDict {[ "text" := VInt 5 ]}) (KStr "did:abc") abc_info (VInt 42)
           (VInt 5) loaded TypeError);
    vm_compute; reflexivity.
Defined.


Lemma accepted_forward_logs_status_witness :
  exists logged,
    on_message base_url api_key Scenario.loads accepts "create hello" loaded =
      Run [Log INFO logged;
           Log INFO (SendingPost
             (base_url ++ "process-tweet/trigger-workflow")%string);
           HttpPost (base_url ++ "process-tweet/trigger-workflow")%string
                    (trigger_payload (VInt 42) (VStr "hello"))
                    (authorization api_key) 15;
           Log INFO (TriggeredWorkflow 200)]
          (State (SUBSCRIBED_AUTHORS_DATA loaded) (S (requests_issued loaded)))
          (Ok tt).
Proof.
  apply (accepted_forward_logs_status base_url api_key Scenario.loads accepts
           "create hello" loaded (trigger_payload (VInt 42) (VStr "hello"))
           (Response 200 "ok" (Ok VNone)));
    vm_compute; reflexivity.
Defined.

Lemma unnamed_forward_exception_is_logged_witness :
  exists logged lvl msg,
    on_message base_url api_key Scenario.loads misconfigured "create hello"
      loaded =
      Run [Log INFO logged;
           Log INFO (SendingPost
             (base_url ++ "process-tweet/trigger-workflow")%string);
           HttpPost (base_url ++ "process-tweet/trigger-workflow")%string
                    (trigger_payload (VInt 42) (VStr "hello"))
                    (authorization api_key) 15;
           Log lvl msg]
          (State (SUBSCRIBED_AUTHORS_DATA loaded) (S (requests_issued loaded)))
          (Ok tt)
    /\ lvl <> INFO.
Proof.
  apply (unnamed_forward_exception_is_logged base_url api_key Scenario.loads
           misconfigured "create hello" loaded
           (trigger_payload (VInt 42) (VStr "hello")) OtherException);
    vm_compute; reflexivity.
Defined.

Lemma error_status_idles_worker_witness :
  fetch_subscribed_authors base_url api_key unauthorized initial =
    Run (fetch_prefix base_url api_key
           ++ [Log ERROR (UnexpectedFetchError
                            (HTTPStatusError 401 "unauthorized"))])
        initial (Ok [])
  /\ returned (main base_url api_key Scenario.loads unauthorized accepts
                 three_sessions initial) = Ok Returned
  /\ connections
       (events (main base_url api_key Scenario.loads unauthorized accepts
                  three_sessions initial)) = [].
Proof.
  apply (error_status_idles_worker base_url api_key Scenario.loads unauthorized
           accepts three_sessions initial (Response 401 "unauthorized" (Ok VNone))
           (HTTPStatusError 401 "unauthorized"));
    reflexivity.
Defined.

Lemma load_raises_only_interruptions_witness :
  is_Exception NonException = false
  /\ fetched interrupted = Raise NonException
  /\ fetch_subscribed_authors base_url api_key interrupted initial =
       Run (fetch_prefix base_url api_key) initial (Raise NonException)
  /\ returned (main base_url api_key Scenario.loads interrupted accepts
                 three_sessions initial) = Raise NonException
  /\ connections
       (events (main base_url api_key Scenario.loads interrupted accepts
                  three_sessions initial)) = [].
Proof.
  apply (load_raises_only_interruptions base_url api_key Scenario.loads
           interrupted accepts three_sessions initial NonException).
  reflexivity.
Defined.

Lemma main_keeps_roster_invariant_witness :
  roster_invariant
    (SUBSCRIBED_AUTHORS_DATA
       (state_after (main base_url api_key Scenario.loads authors_reply accepts
                       three_sessions initial))).
Proof.
  apply (main_keeps_roster_invariant base_url api_key Scenario.loads
           authors_reply accepts three_sessions initial).
  intros key info Hlook. vm_compute in Hlook. discriminate.
Defined.

(** A new post that names no did, against the loaded roster. *)
Lemma falsy_did_is_not_forwarded_witness :
  forward_calls
    (events (on_message base_url api_key loads accepts "create anonymous" loaded))
    = []
  /\ state_after (on_message base_url api_key loads accepts "create anonymous"
                    loaded) = loaded.
Proof.
  apply (falsy_did_is_not_forwarded base_url api_key loads accepts
           "create anonymous" anonymous_post loaded).
  - apply (fetch_keeps_invariant base_url api_key authors_reply initial).
    intros key info Hlook. vm_compute in Hlook. discriminate.
  - vm_compute. reflexivity.
  - vm_compute. reflexivity.
Defined.

Lemma returned_dids_resolve_witness :
  truthy (VStr "did:abc") = true
  /\ exists key info,
       hash_key (VStr "did:abc") = Ok key
       /\ SUBSCRIBED_AUTHORS_DATA loaded !! key = Some info.
Proof.
  apply (returned_dids_resolve base_url api_key authors_reply initial
           [VStr "did:abc"] (VStr "did:abc")).
  - vm_compute. reflexivity.
  - apply list_elem_of_here.
Defined.

Lemma listen_in_arrival_order_witness :
  let messages := ["create hello"; "not json"; "update hello"; "create bye"] in
  forward_calls
    (events (listen base_url api_key Scenario.loads accepts messages
               (Broken ConnectionClosed) loaded)) =
  flat_map
    (λ message,
       forward_calls
         (events (on_message base_url api_key Scenario.loads accepts
                    message loaded)))
    messages
  /\ flat_map
       (λ message,
          forward_calls
            (events (on_message base_url api_key Scenario.loads accepts
                       message loaded)))
       messages
     = [trigger_payload (VInt 42) (VStr "hello");
        trigger_payload (VInt 42) (VStr "bye")].
Proof.
  split.
  - apply (listen_in_arrival_order base_url api_key Scenario.loads accepts
             ["create hello"; "not json"; "update hello"; "create bye"]
             (Broken ConnectionClosed) loaded).
    vm_compute. reflexivity.
  - vm_compute. reflexivity.
Defined.

(** The same post against a workflow API that accepts and one that is
    down, after seven earlier requests. *)
Lemma forwarding_ignores_workflow_answers_witness :
  forward_calls
    (events (on_message base_url api_key Scenario.loads accepts
               "create hello" loaded)) =
  forward_calls
    (events (on_message base_url api_key Scenario.loads unavailable
               "create hello" (State (SUBSCRIBED_AUTHORS_DATA loaded) 7))).
Proof.
  apply (forwarding_ignores_workflow_answers base_url api_key Scenario.loads
           accepts unavailable "create hello" loaded
           (State (SUBSCRIBED_AUTHORS_DATA loaded) 7)).
  reflexivity.
Defined.

Lemma repeated_message_is_forwarded_again_witness :
  forward_calls
    (events (listen base_url api_key Scenario.loads accepts
               ["create hello"; "create hello"] Exhausted loaded)) =
    [trigger_payload (VInt 42) (VStr "hello");
     trigger_payload (VInt 42) (VStr "hello")].
Proof.
  rewrite (repeated_message_is_forwarded_again base_url api_key Scenario.loads
             accepts "create hello" Exhausted loaded).
  - vm_compute. reflexivity.
  - vm_compute. reflexivity.
Defined.
